(** * pern-todos: the todo REST service and its client view

    A shallow embedding of [src/server/src/index.ts] (the Express handlers,
    and the React component that calls them) together with a model of the
    data store the handlers talk to.

    Conventions.
    - A JavaScript string is a [string]; every [ascii] stands for one code
      unit in the range 0..255.
    - A JavaScript number is a double. The handlers only meet doubles that
      are integers, infinities and [NaN]; the one quotient they form,
      [totalCount / limit], goes to [Math.ceil] at once. An integer is
      rounded to the nearest double wherever the code computes one. The sign
      of zero is not kept: neither [ToString] nor [JSON.stringify] shows it.
    - [await pool.query(sql, params)] is a call to the environment: a handler
      is a tree of such calls ([Prog]), and [run] executes it against a
      store. *)

From Stdlib Require Import ZArith Ascii String Lia.
From stdpp Require Import gmap strings list fin_maps pretty.

Local Open Scope string_scope.
Local Open Scope Z_scope.
#[local] Set Warnings "-register-all".

(* ===================================================================== *)
(** ** JavaScript values and the built-ins the source calls *)
(* ===================================================================== *)

Module JS.

(** A number: [NaN], a double that is an integer, or an infinity. *)
Inductive Number : Type :=
| NaN
| Num (z : Z)
| Infinity (negative : bool).

(** The values that flow through the handlers: request fields, rows of a
    query result, and what [res.json] is given. *)
Inductive Value : Type :=
| VUndefined
| VNull
| VBool (b : bool)
| VNum (n : Number)
| VStr (s : string)
| VArr (l : list Value)
| VObj (fields : list (string * Value)).

(** *** Doubles *)

(** [floor (log2 (n / d))] for positive [n] and [d]. *)
Definition log2_ratio (n d : Z) : Z :=
  let k := Z.log2 n - Z.log2 d in
  if (if 0 <=? k then d * 2 ^ k <=? n else d <=? n * 2 ^ (- k)) then k else k - 1.

(** The double nearest to the positive rational [n / d], a tie going to the
    even mantissa: the mantissa [m <= 2^53] and the exponent [e >= -1074] of
    the value [m * 2^e]. *)
Definition nearest (n d : Z) : Z * Z :=
  let e := Z.max (log2_ratio n d - 52) (- 1074) in
  let num := if 0 <=? e then n else n * 2 ^ (- e) in
  let den := if 0 <=? e then d * 2 ^ e else d in
  let m := num / den in
  let r := num mod den in
  (if (den <? 2 * r) || ((den =? 2 * r) && Z.odd m) then m + 1 else m, e).

(** The integer [z] as a double: itself below 2^53, the nearest double
    above, an infinity from 2^1024 on. *)
Definition double (z : Z) : Number :=
  if Z.abs z <? 2 ^ 53 then Num z
  else
    let '(m, e) := nearest (Z.abs z) 1 in
    if 2 ^ 1024 <=? m * 2 ^ e then Infinity (z <? 0)
    else Num (Z.sgn z * (m * 2 ^ e)).

(** [a - b] *)
Definition sub (a b : Number) : Number :=
  match a, b with
  | NaN, _ | _, NaN => NaN
  | Infinity s, Infinity s' => if Bool.eqb s s' then NaN else Infinity s
  | Infinity s, Num _ => Infinity s
  | Num _, Infinity s => Infinity (negb s)
  | Num x, Num y => double (x - y)
  end.

(** [a * b] *)
Definition mul (a b : Number) : Number :=
  match a, b with
  | NaN, _ | _, NaN => NaN
  | Infinity s, Infinity s' => Infinity (xorb s s')
  | Infinity s, Num y | Num y, Infinity s =>
      if y =? 0 then NaN else Infinity (xorb s (y <? 0))
  | Num x, Num y => double (x * y)
  end.

(** [Math.ceil(a / b)] for integers [a] and [b <> 0]: the quotient is
    rounded to the nearest double, and the ceiling is taken of that. *)
Definition ceil_quotient (a b : Z) : Number :=
  if a =? 0 then Num 0
  else
    let '(m, e) := nearest (Z.abs a) (Z.abs b) in
    let negative := xorb (a <? 0) (b <? 0) in
    if 0 <=? e then
      if 2 ^ 1024 <=? m * 2 ^ e then Infinity negative
      else Num (if negative then - (m * 2 ^ e) else m * 2 ^ e)
    else
      if negative then Num (- (m / 2 ^ (- e)))
      else Num (- ((- m) / 2 ^ (- e))).

(** [Math.ceil(a / b)]. A zero divisor is taken to be [+0]. *)
Definition ceil_div (a b : Number) : Number :=
  match a, b with
  | NaN, _ | _, NaN => NaN
  | Infinity _, Infinity _ => NaN
  | Infinity s, Num y => Infinity (xorb s (y <? 0))
  | Num _, Infinity _ => Num 0
  | Num x, Num y =>
      if y =? 0 then (if x =? 0 then NaN else Infinity (x <? 0))
      else ceil_quotient x y
  end.

(** [n || d] for a number [n] and a non-zero default [d]: [NaN] and [0] are
    falsy. *)
Definition or_default (n : Number) (d : Z) : Number :=
  match n with
  | NaN => Num d
  | Num z => if z =? 0 then Num d else Num z
  | Infinity s => Infinity s
  end.

(** The number is below zero. *)
Definition negative (n : Number) : bool :=
  match n with
  | NaN => false
  | Num z => z <? 0
  | Infinity s => s
  end.

(** *** Strings *)

Definition code (c : ascii) : Z := Z.of_nat (nat_of_ascii c).

(** WhiteSpace and LineTerminator code units (those below 256): TAB, LF, VT,
    FF, CR, SP and NBSP. *)
Definition is_whitespace (c : ascii) : bool :=
  ((9 <=? code c) && (code c <=? 13)) || (code c =? 32) || (code c =? 160).

Fixpoint trimStart (s : string) : string :=
  match s with
  | String c r => if is_whitespace c then trimStart r else s
  | EmptyString => EmptyString
  end.

Definition trimEnd (s : string) : string :=
  String.rev (trimStart (String.rev s)).

(** [String.prototype.trim]. *)
Definition trim (s : string) : string := trimEnd (trimStart s).

(** A string is truthy when it is not empty. *)
Definition truthy_string (s : string) : bool :=
  match s with EmptyString => false | String _ _ => true end.

Fixpoint starts_with (s p : string) : bool :=
  match p, s with
  | EmptyString, _ => true
  | String a p', String b s' => if Ascii.eqb a b then starts_with s' p' else false
  | String _ _, EmptyString => false
  end.

(** [s.includes(sub)]. *)
Fixpoint includes (s sub : string) : bool :=
  starts_with s sub ||
  match s with
  | String _ r => includes r sub
  | EmptyString => false
  end.

(** What [includes] decides: [sub] occurs in [s]. *)
Definition contains (s sub : string) : Prop :=
  exists pre post, s = pre +:+ sub +:+ post.

(** *** [parseInt] *)

(** The value of a digit: [0-9], [a-z] and [A-Z] (10..35). *)
Definition digit_value (c : ascii) : option Z :=
  let n := code c in
  if (48 <=? n) && (n <=? 57) then Some (n - 48)
  else if (97 <=? n) && (n <=? 122) then Some (n - 87)
  else if (65 <=? n) && (n <=? 90) then Some (n - 55)
  else None.

Definition radix_digit (R : Z) (c : ascii) : option Z :=
  match digit_value c with
  | Some d => if d <? R then Some d else None
  | None => None
  end.

(** Steps 11-14 of [parseInt]: read the longest prefix of radix-[R] digits;
    [None] when that prefix is empty. *)
Fixpoint scan_digits (R : Z) (s : string) (acc : Z) (seen : bool) : option Z :=
  match s with
  | String c r =>
      match radix_digit R c with
      | Some d => scan_digits R r (acc * R + d) true
      | None => if seen then Some acc else None
      end
  | EmptyString => if seen then Some acc else None
  end.

(** Steps 3-5: the sign. *)
Definition strip_sign (s : string) : bool * string :=
  match s with
  | String "-" r => (true, r)
  | String "+" r => (false, r)
  | _ => (false, s)
  end.

(** Step 10: with no radix argument a [0x] or [0X] prefix selects base 16. *)
Definition strip_prefix (s : string) : Z * string :=
  match s with
  | String "0" (String "x" r) => (16, r)
  | String "0" (String "X" r) => (16, r)
  | _ => (10, s)
  end.

(** [parseInt(string)] on a string, with no radix argument: the integer the
    digits stand for, as a double. *)
Definition parseInt_string (s : string) : Number :=
  let '(neg, s1) := strip_sign (trimStart s) in
  let '(R, s2) := strip_prefix s1 in
  match scan_digits R s2 0 false with
  | None => NaN
  | Some m => double (if neg then - m else m)
  end.



(** *** [ToString] *)

(** A multiple of [10^(nd - k)] next to [a] that is read back as the double
    [a], for the least [k] from [k] on that has one; of two, the nearer, and
    the one with the even digit when they are as near. *)
Fixpoint shortest_from (fuel : nat) (nd k a : Z) : Z :=
  match fuel with
  | O => a
  | S fuel' =>
      let unit := 10 ^ (nd - k) in
      let lo := a / unit * unit in
      let hi := lo + unit in
      let reads v := match double v with
                     | Num b => b =? a
                     | _ => false
                     end in
      if reads lo && reads hi then
        if a - lo <? hi - a then lo
        else if hi - a <? a - lo then hi
        else if Z.even (a / unit) then lo else hi
      else if reads lo then lo
      else if reads hi then hi
      else shortest_from fuel' nd (k + 1) a
  end.

(** The decimal with the fewest significant digits that is read back as
    the double [a], for an integer [a > 0]. *)
Definition shortest (a : Z) : Z :=
  let nd := Z.of_nat (String.length (pretty a)) in
  shortest_from (Z.to_nat nd) nd 1 a.

(** Digits without the zeros at their end. *)
Fixpoint strip_zeros (s : string) : string :=
  match s with
  | String c r =>
      match strip_zeros r with
      | EmptyString => if Ascii.eqb c "0" then EmptyString else String c EmptyString
      | r' => String c r'
      end
  | EmptyString => EmptyString
  end.

(** [d.ddde+x]: the first digit, the others after a point when there are
    any, and the exponent. *)
Definition exponent_form (v : Z) : string :=
  let exponent := pretty (Z.of_nat (String.length (pretty v)) - 1) in
  match strip_zeros (pretty v) with
  | String c EmptyString => String c ("e+" +:+ exponent)
  | String c r => String c ("." +:+ r +:+ "e+" +:+ exponent)
  | EmptyString => EmptyString
  end.

(** [Number::toString] of an integer [a >= 0]: its digits below 2^53; above,
    the shortest digits that give the same double, followed by zeros up to
    21 digits and by an exponent beyond. *)
Definition unsigned_toString (a : Z) : string :=
  if a <? 2 ^ 53 then pretty a
  else
    let v := shortest a in
    if v <? 10 ^ 21 then pretty v else exponent_form v.

(** [Number::toString] *)
Definition Number_toString (n : Number) : string :=
  match n with
  | NaN => "NaN"
  | Infinity false => "Infinity"
  | Infinity true => "-Infinity"
  | Num z => if z <? 0 then "-" +:+ unsigned_toString (- z) else unsigned_toString z
  end.

Definition comma : string := ",".

(** The message of the TypeError that [ToString] throws. *)
Definition CANNOT_CONVERT : string := "Cannot convert object to primitive value".

(** The object has a property of its own with this name. *)
Fixpoint has_own (k : string) (fields : list (string * Value)) : bool :=
  match fields with
  | [] => false
  | (k', _) :: rest => String.eqb k k' || has_own k rest
  end.

(** [ToString]: the string, or the message of the TypeError thrown. An
    array joins its elements with commas, [null] and [undefined] elements
    giving the empty string. An object gives ["[object Object]"] through
    [Object.prototype.toString], unless it has a [toString] property of its
    own: no value here is callable, so that nothing converts the object and
    the TypeError is thrown. *)
Fixpoint ToString (v : Value) : string + string :=
  match v with
  | VUndefined => inr "undefined"
  | VNull => inr "null"
  | VBool true => inr "true"
  | VBool false => inr "false"
  | VNum n => inr (Number_toString n)
  | VStr s => inr s
  | VArr l =>
      (fix join (l : list Value) : string + string :=
         match l with
         | [] => inr ""
         | x :: rest =>
             match match x with
                   | VUndefined | VNull => inr ""
                   | _ => ToString x
                   end with
             | inl message => inl message
             | inr sx =>
                 match rest with
                 | [] => inr sx
                 | _ :: _ =>
                     match join rest with
                     | inl message => inl message
                     | inr sr => inr (sx +:+ comma +:+ sr)
                     end
                 end
             end
         end) l
  | VObj fields =>
      if has_own "toString" fields then inl CANNOT_CONVERT
      else inr "[object Object]"
  end.

(** [parseInt(v)]: the argument is converted with [ToString] first. *)
Definition parseInt (v : Value) : string + Number :=
  match ToString v with
  | inl message => inl message
  | inr s => inr (parseInt_string s)
  end.

(** *** Arrays and objects *)

(** [rows[0]]: [undefined] when the array is empty. *)
Definition index0 (rows : list Value) : Value :=
  match rows with
  | [] => VUndefined
  | r :: _ => r
  end.

Fixpoint assoc (k : string) (fields : list (string * Value)) : Value :=
  match fields with
  | [] => VUndefined
  | (k', v) :: rest => if String.eqb k k' then v else assoc k rest
  end.

(** [v.k]: reading a property of [undefined] or [null] throws a TypeError,
    whose message is returned on the left. *)
Definition get_prop (v : Value) (k : string) : string + Value :=
  match v with
  | VUndefined =>
      inl ("Cannot read properties of undefined (reading '" +:+ k +:+ "')")
  | VNull =>
      inl ("Cannot read properties of null (reading '" +:+ k +:+ "')")
  | VObj fields => inr (assoc k fields)
  | _ => inr VUndefined
  end.

End JS.
(* ===================================================================== *)
(** ** Programs that await the environment *)
(* ===================================================================== *)

Module Eff.

(** A computation that ends with an [R] after awaiting the answers (of type
    [A]) to a finite number of requests (of type [Q]). *)
Inductive Prog (Q A R : Type) : Type :=
| Ret (r : R)
| Await (q : Q) (k : A -> Prog Q A R).

Arguments Ret {Q A R} r.
Arguments Await {Q A R} q k.

Fixpoint bind {Q A R R'} (p : Prog Q A R) (f : R -> Prog Q A R') : Prog Q A R' :=
  match p with
  | Ret r => f r
  | Await q k => Await q (fun a => bind (k a) f)
  end.

(** The body of a [try] block: it ends with a thrown message or a value. *)
Definition Try (Q A R : Type) : Type := Prog Q A (string + R).

Definition ok {Q A R} (r : R) : Try Q A R := Ret (inr r).
Definition throw {Q A R} (message : string) : Try Q A R := Ret (inl message).

Definition bind_try {Q A R R'} (p : Try Q A R) (f : R -> Try Q A R') : Try Q A R' :=
  bind p (fun x => match x with
                   | inl message => Ret (inl message)
                   | inr r => f r
                   end).

(** [try { body } catch (err) { handler(err.message) }]. *)
Definition try_catch {Q A R} (body : Try Q A R) (handler : string -> Prog Q A R)
  : Prog Q A R :=
  bind body (fun x => match x with
                      | inl message => handler message
                      | inr r => Ret r
                      end).

(** What one execution leaves behind: the result, the environment's final
    state, and the requests made with their answers, oldest first. *)
Record Outcome (Q A R S : Type) : Type := {
  result : R;
  final : S;
  trace : list (Q * A)
}.

Arguments result {Q A R S} o.
Arguments final {Q A R S} o.
Arguments trace {Q A R S} o.

(** Run a program against an environment that answers each request and
    moves to a new state. *)
Fixpoint run {Q A R S} (env : Q -> S -> A * S) (p : Prog Q A R) (s : S)
  : Outcome Q A R S :=
  match p with
  | Ret r => {| result := r; final := s; trace := [] |}
  | Await q k =>
      let '(a, s') := env q s in
      let o := run env (k a) s' in
      {| result := result o; final := final o; trace := (q, a) :: trace o |}
  end.

(** A [string + R] inside a [try] block: the left side is thrown. *)
Definition attempt {Q A R} (x : string + R) : Try Q A R :=
  match x with
  | inl message => throw message
  | inr r => ok r
  end.

(** Whatever the answers, every request the program makes satisfies [P]. *)
Inductive sends_only {Q A R} (P : Q -> Prop) : Prog Q A R -> Prop :=
| sends_only_ret (r : R) : sends_only P (Ret r)
| sends_only_await (q : Q) (k : A -> Prog Q A R) :
    P q -> (forall a, sends_only P (k a)) -> sends_only P (Await q k).

End Eff.

Declare Scope try_scope.
Delimit Scope try_scope with try.
Notation "x <- e ;; k" := (Eff.bind_try e (fun x => k))
  (at level 100, e at next level, right associativity) : try_scope.

(* ===================================================================== *)
(** ** The API service: [src/server/src/index.ts], lines 1-160 *)
(* ===================================================================== *)

Module Server.
Import JS Eff.

(** One call [pool.query(text, values)]. *)
Record Query : Type := {
  text : string;
  values : list Value
}.

(** Its outcome: the promise rejects with an error, of which the handlers
    read [message] only, or resolves to a result, of which they read [rows]
    only. *)
Inductive Answer : Type :=
| Threw (message : string)
| Result (rows : list Value).

(** What a handler sends: [res.json(body)] leaves the status at 200,
    [res.status(n).json(body)] sets it. *)
Record Response : Type := {
  status : Z;
  body : Value
}.

(** A handler whose whole body is one [try ... catch]: it always ends by
    sending a response. *)
Definition Handler : Type := Prog Query Answer Response.

(** How the call of a handler ends in general: with the response it sent,
    or, on the left, with the message of an exception that escaped it. The
    promise of the async function is then rejected, and the handler has sent
    nothing. *)
Definition Route : Type := Try Query Answer Response.

(** A [Handler] as a [Route]: nothing escapes it. *)
Definition caught (h : Handler) : Route := bind h ok.

Definition res_json (v : Value) : Response := {| status := 200; body := v |}.
Definition res_status_json (n : Z) (v : Value) : Response :=
  {| status := n; body := v |}.

(** [await pool.query(text, values)] inside a [try] block, bound to
    [result.rows]. *)
Definition pool_query (text : string) (values : list Value)
  : Try Query Answer (list Value) :=
  Await {| text := text; values := values |}
        (fun a => match a with
                  | Threw message => throw message
                  | Result rows => ok rows
                  end).

(** A property read inside a [try] block. *)
Definition prop (v : Value) (k : string) : Try Query Answer Value :=
  match get_prop v k with
  | inl message => throw message
  | inr x => ok x
  end.

Definition dquote : string := String (ascii_of_nat 34) EmptyString.

(** ['relation "todos" does not exist']. *)
Definition MISSING_RELATION : string :=
  "relation " +:+ dquote +:+ "todos" +:+ dquote +:+ " does not exist".

(** ['The "todos" table does not exist in the database.']. *)
Definition NO_TABLE_MESSAGE : string :=
  "The " +:+ dquote +:+ "todos" +:+ dquote +:+ " table does not exist in the database.".

Definition SELECT_ALL : string := "SELECT * FROM todos".
Definition INSERT : string := "INSERT INTO todos (text) VALUES ($1) RETURNING *".
Definition CREATE_TABLE : string :=
  "CREATE TABLE todos (id SERIAL PRIMARY KEY, text VARCHAR(255) NOT NULL)".
Definition UPDATE_TEXT : string := "UPDATE todos SET text = $1 WHERE id = $2 RETURNING *".
Definition DELETE : string := "DELETE FROM todos WHERE id = $1".
Definition SELECT_PAGE : string := "SELECT * FROM todos LIMIT $1 OFFSET $2".
Definition COUNT : string := "SELECT COUNT(*) FROM todos".
Definition SEARCH : string := "SELECT * FROM todos WHERE text ILIKE $1".
Definition DATE_RANGE : string :=
  "SELECT * FROM todos WHERE created_at BETWEEN $1 AND $2".
Definition COMPLETE : string :=
  "UPDATE todos SET completed = TRUE WHERE id = $1 RETURNING *".

(** [{ error: message }] and the generic [catch] block
    [res.status(500).json({ error: error.message })]. *)
Definition error_body (message : string) : Value := VObj [("error", VStr message)].
Definition send_error (message : string) : Handler :=
  Ret (res_status_json 500 (error_body message)).

(** [app.get('/')] *)
Definition get_root : Handler :=
  Ret (res_json (VObj [("message", VStr "Hello World!")])).

(** [app.get('/todos')] *)
Definition get_todos : Handler :=
  try_catch
    (rows <- pool_query SELECT_ALL [] ;;
     ok (res_json (VArr rows)))%try
    (fun message =>
       if includes message MISSING_RELATION
       then Ret (res_status_json 500 (error_body NO_TABLE_MESSAGE))
       else Ret (res_status_json 500 (error_body message))).

(** [app.post('/todos')]; [text] is [req.body.text]. *)
Definition post_todos (text : Value) : Handler :=
  try_catch
    (rows <- pool_query INSERT [text] ;;
     ok (res_json (index0 rows)))%try
    (fun message =>
       if includes message MISSING_RELATION
       then
         try_catch
           (_ <- pool_query CREATE_TABLE [] ;;
            rows <- pool_query INSERT [text] ;;
            ok (res_json (index0 rows)))%try
           send_error
       else send_error message).

(** [app.put('/todos/:id')] *)
Definition put_todo (id : string) (text : Value) : Handler :=
  try_catch
    (rows <- pool_query UPDATE_TEXT [text; VStr id] ;;
     ok (res_json (index0 rows)))%try
    send_error.

(** [app.delete('/todos/:id')] *)
Definition delete_todo (id : string) : Handler :=
  try_catch
    (_ <- pool_query DELETE [VStr id] ;;
     ok (res_json (VObj [("message", VStr "Todo deleted")])))%try
    send_error.

(** [app.get('/todos/paginated')]; [page_param] and [limit_param] are
    [req.query.page] and [req.query.limit]. Lines 87 to 89 stand before the
    [try]: a TypeError thrown by [parseInt] there escapes the handler. *)
Definition get_paginated (page_param limit_param : Value) : Route :=
  (parsed_page <- attempt (parseInt page_param) ;;
   parsed_limit <- attempt (parseInt limit_param) ;;
   let page := or_default parsed_page 1 in
   let limit := or_default parsed_limit 10 in
   let offset := mul (sub page (Num 1)) limit in
   caught
     (try_catch
        (rows <- pool_query SELECT_PAGE [VNum limit; VNum offset] ;;
         countRows <- pool_query COUNT [] ;;
         count <- prop (index0 countRows) "count" ;;
         totalCount <- attempt (parseInt count) ;;
         ok (res_json (VObj [("todos", VArr rows);
                             ("currentPage", VNum page);
                             ("totalPages", VNum (ceil_div totalCount limit));
                             ("totalCount", VNum totalCount)])))
        send_error))%try.

(** The template literal [`%${searchText}%`]. *)
Definition like_pattern (searchText : Value) : string + string :=
  match ToString searchText with
  | inl message => inl message
  | inr s => inr ("%" +:+ s +:+ "%")
  end.

(** [app.get('/todos/search')]; [q] is [req.query.q]. The template literal
    is evaluated inside the [try]. *)
Definition get_search (q : Value) : Handler :=
  let searchText := q in
  try_catch
    (pattern <- attempt (like_pattern searchText) ;;
     rows <- pool_query SEARCH [VStr pattern] ;;
     ok (res_json (VArr rows)))%try
    send_error.

(** [app.get('/todos/date-range')] *)
Definition get_date_range (startDate endDate : Value) : Handler :=
  try_catch
    (rows <- pool_query DATE_RANGE [startDate; endDate] ;;
     ok (res_json (VArr rows)))%try
    send_error.

(** [app.get('/todos/count')] *)
Definition get_count : Handler :=
  try_catch
    (rows <- pool_query COUNT [] ;;
     count <- prop (index0 rows) "count" ;;
     parsed <- attempt (parseInt count) ;;
     ok (res_json (VObj [("count", VNum parsed)])))%try
    send_error.

(** [app.patch('/todos/:id/complete')] *)
Definition patch_complete (id : string) : Handler :=
  try_catch
    (rows <- pool_query COMPLETE [VStr id] ;;
     ok (res_json (index0 rows)))%try
    send_error.

(** A request that reached one of the routes the application registers,
    with the fields its handler reads. With Express 4, [req.body] is an
    object even when the request has no JSON body, so that [text] is then
    [undefined]; a path parameter is a string; and [req.query], parsed by
    [qs], holds strings, arrays and plain objects, an absent parameter being
    [undefined]. *)
Inductive Request : Type :=
| GetRoot
| GetTodos
| PostTodos (text : Value)
| PutTodo (id : string) (text : Value)
| DeleteTodo (id : string)
| GetPaginated (page limit : Value)
| GetSearch (q : Value)
| GetDateRange (start finish : Value)
| GetCount
| PatchComplete (id : string).

Definition app (r : Request) : Route :=
  match r with
  | GetRoot => caught get_root
  | GetTodos => caught get_todos
  | PostTodos text => caught (post_todos text)
  | PutTodo id text => caught (put_todo id text)
  | DeleteTodo id => caught (delete_todo id)
  | GetPaginated page limit => get_paginated page limit
  | GetSearch q => caught (get_search q)
  | GetDateRange start finish => caught (get_date_range start finish)
  | GetCount => caught get_count
  | PatchComplete id => caught (patch_complete id)
  end.

(** *** Names for what the theorems speak of *)

(** The queries the handlers make. *)
Definition SELECT_ALL_QUERY : Query := {| text := SELECT_ALL; values := [] |}.
Definition INSERT_QUERY (text : Value) : Query :=
  {| text := INSERT; values := [text] |}.
Definition CREATE_QUERY : Query := {| text := CREATE_TABLE; values := [] |}.
Definition DELETE_QUERY (id : string) : Query :=
  {| text := DELETE; values := [VStr id] |}.
Definition PAGE_QUERY (limit offset : Number) : Query :=
  {| text := SELECT_PAGE; values := [VNum limit; VNum offset] |}.
Definition COUNT_QUERY : Query := {| text := COUNT; values := [] |}.
Definition SEARCH_QUERY (pattern : string) : Query :=
  {| text := SEARCH; values := [VStr pattern] |}.
Definition COMPLETE_QUERY (id : string) : Query :=
  {| text := COMPLETE; values := [VStr id] |}.

Definition UPDATE_QUERY (text : Value) (id : string) : Query :=
  {| text := UPDATE_TEXT; values := [text; VStr id] |}.
Definition DATE_RANGE_QUERY (startDate endDate : Value) : Query :=
  {| text := DATE_RANGE; values := [startDate; endDate] |}.

(** The ten statement texts of the file. *)
Definition STATEMENTS : list string :=
  [SELECT_ALL; INSERT; CREATE_TABLE; UPDATE_TEXT; DELETE; SELECT_PAGE; COUNT;
   SEARCH; DATE_RANGE; COMPLETE].

(** A statement that starts with the keyword SELECT. *)
Definition is_select (sql : string) : bool := starts_with sql "SELECT".

(** The routes registered with [app.get]. *)
Definition is_get (r : Request) : bool :=
  match r with
  | GetRoot | GetTodos | GetPaginated _ _ | GetSearch _ | GetDateRange _ _
  | GetCount => true
  | PostTodos _ | PutTodo _ _ | DeleteTodo _ | PatchComplete _ => false
  end.

(** The query was answered with rows. *)
Definition succeeded (qa : Query * Answer) : Prop :=
  exists rows, snd qa = Result rows.

(** The body of a successful DELETE /todos/:id. *)
Definition DELETED : Value := VObj [("message", VStr "Todo deleted")].

(** The body of a successful GET /todos/paginated. *)
Definition page_body (rows : list Value) (page totalPages totalCount : Number)
  : Value :=
  VObj [("todos", VArr rows);
        ("currentPage", VNum page);
        ("totalPages", VNum totalPages);
        ("totalCount", VNum totalCount)].


(** The rows of a response whose body is an array. *)
Definition returned_rows (e : string + Response) : list Value :=
  match e with
  | inr r => match body r with
             | VArr l => l
             | _ => []
             end
  | inl _ => []
  end.

(** The [todos] of a page response. *)
Definition page_todos (e : string + Response) : list Value :=
  match e with
  | inr r => match get_prop (body r) "todos" with
             | inr (VArr l) => l
             | _ => []
             end
  | inl _ => []
  end.

(** The handler sent a response with status 500 and the body
    [{ error: message }]. *)
Definition answered_error (e : string + Response) (message : string) : Prop :=
  e = inr (res_status_json 500 (error_body message)).

(** An object that cannot be converted to a string: what Express's query
    parser makes of [?page[toString]=x]. *)
Definition UNCONVERTIBLE : Value := VObj [("toString", VStr "x")].

End Server.

(* ===================================================================== *)
(** ** The data store

    The handlers reach one PostgreSQL table, [todos], through the ten
    statements above. The store is not part of the repository: [Pg.exec]
    models what it does with those statements on a state, which is [None]
    when the relation does not exist and a table otherwise. The table may
    have been created by [CREATE_TABLE] (columns [id] and [text] only) or
    provisioned elsewhere with the [completed] and [created_at] columns the
    other routes refer to. The database is taken to be encoded in UTF8.
    What differs from one installation of the store to another (the texts
    read as integers, the lower-casing of the locale, the order in which
    rows come back) is a parameter, the [Codec]. What holds of the handlers
    whatever the store answers is proved against any store; only what
    depends on the state is proved against this one. *)
(* ===================================================================== *)

Module Pg.
Import JS.

(** A column that the table may or may not have, with its default when it
    has it ([None] is NULL). *)
Inductive Column (A : Type) : Type :=
| Absent
| Present (default : option A).

Arguments Absent {A}.
Arguments Present {A} default.

Definition column_default {A} (c : Column A) : option A :=
  match c with
  | Absent => None
  | Present d => d
  end.

(** A row without its key. *)
Record Row : Type := {
  text : string;
  completed : option bool;
  created_at : option Z
}.

(** The table: its optional columns, its rows by [id] (the primary key) and
    the next value of the [SERIAL] sequence. *)
Record Table : Type := {
  completed_column : Column bool;
  created_at_column : Column Z;
  rows : gmap Z Row;
  next_id : Z
}.

Definition DB : Type := option Table.

(** Lower case for the letters A-Z. *)
Definition ascii_lower (c : ascii) : ascii :=
  if (65 <=? code c) && (code c <=? 90)
  then ascii_of_nat (nat_of_ascii c + 32)
  else c.

(** Lower case for the letters A-Z and for the capital letters of Latin-1
    (192 to 222, the multiplication sign apart). *)
Definition latin1_lower (c : ascii) : ascii :=
  if (192 <=? code c) && (code c <=? 222) && negb (code c =? 215)
  then ascii_of_nat (nat_of_ascii c + 32)
  else ascii_lower c.

(** What the source leaves to the driver and to the store, and what
    differs between installations of the store.
    - [int4_in] and [int8_in] read decimal digits in every version of the
      store; from version 16 on they also read the [0x], [0o] and [0b]
      forms and underscores between digits. Only what all versions do with
      the decimal text of an integer is assumed.
    - [lower] is the lower-casing of the database's locale, with which
      ILIKE compares. Every locale covered here lowers the letters A-Z as
      ASCII does and keeps the other characters apart from ASCII (the
      Turkish and Azeri locales, which lower I to a dotless i, are not
      covered); what becomes of the characters from 128 on is the locale's.
    - [scan] is the order in which a statement without ORDER BY meets the
      rows. SQL leaves it open, and it changes as rows are written; it is
      only assumed that every row comes once. *)
Class Codec : Type := {
  (** the driver's text for an array or object passed as a parameter *)
  encode_composite : Value -> string;
  (** the store's timestamp input: [None] on invalid syntax *)
  timestamp_in : string -> option Z;
  (** a timestamp as it appears in a row sent by [res.json] *)
  timestamp_out : Z -> Value;
  (** the store's input of a parameter of type [integer]: the value, or the
      message of the error raised *)
  int4_in : string -> string + Z;
  (** the same for [bigint] *)
  int8_in : string -> string + Z;
  lower : ascii -> ascii;
  scan : Table -> list (Z * Row);
  int4_in_decimal :
    forall z, - 2 ^ 31 <= z <= 2 ^ 31 - 1 -> int4_in (pretty z) = inr z;
  int8_in_decimal :
    forall z, - 2 ^ 63 <= z <= 2 ^ 63 - 1 -> int8_in (pretty z) = inr z;
  int8_in_exact :
    forall z z', int8_in (pretty z) = inr z' -> z' = z;
  lower_ascii :
    forall c, code c < 128 -> lower c = ascii_lower c;
  lower_other :
    forall c, 128 <= code c -> 128 <= code (lower c);
  scan_rows :
    forall t, scan t ≡ₚ map_to_list (rows t)
}.

(** The row an INSERT of [s] stores in [t]: the other columns take their
    defaults. *)
Definition new_row (t : Table) (s : string) : Row :=
  {| text := s;
     completed := column_default (completed_column t);
     created_at := column_default (created_at_column t) |}.

(** The row [r] with its text replaced. *)
Definition with_text (r : Row) (s : string) : Row :=
  {| text := s; completed := completed r; created_at := created_at r |}.

(** The state has no table, or one with the columns [id] and [text] only. *)
Definition two_columns (db : option Table) : Prop :=
  match db with
  | Some t => completed_column t = Absent /\ created_at_column t = Absent
  | None => True
  end.

(** The row [r] once completed. *)
Definition completed_row (r : Row) : Row :=
  {| text := text r; completed := Some true; created_at := created_at r |}.

(** Every id in the table was given out by the sequence. *)
Definition wf (t : Table) : Prop :=
  forall id r, rows t !! id = Some r -> id < next_id t.

Definition wf_db (db : DB) : Prop :=
  match db with
  | Some t => wf t
  | None => True
  end.

(** The sequence still has a value to give. *)
Definition sequence_available (db : DB) : Prop :=
  match db with
  | Some t => next_id t <= 2 ^ 31 - 1
  | None => True
  end.

(** The table [CREATE_TABLE] makes. *)
Definition created_table : Table :=
  {| completed_column := Absent; created_at_column := Absent;
     rows := ∅; next_id := 1 |}.

Definition with_rows (t : Table) (m : gmap Z Row) : Table :=
  {| completed_column := completed_column t;
     created_at_column := created_at_column t;
     rows := m; next_id := next_id t |}.

Definition with_next_id (t : Table) (n : Z) : Table :=
  {| completed_column := completed_column t;
     created_at_column := created_at_column t;
     rows := rows t; next_id := n |}.

Inductive Stmt : Type :=
| SelectAll | Insert | CreateTable | UpdateText | Delete
| SelectPage | Count | Search | DateRange | Complete.

(** The statements the store is sent, recognised by their text. *)
Definition parse (sql : string) : option Stmt :=
  if String.eqb sql Server.SELECT_ALL then Some SelectAll
  else if String.eqb sql Server.INSERT then Some Insert
  else if String.eqb sql Server.CREATE_TABLE then Some CreateTable
  else if String.eqb sql Server.UPDATE_TEXT then Some UpdateText
  else if String.eqb sql Server.DELETE then Some Delete
  else if String.eqb sql Server.SELECT_PAGE then Some SelectPage
  else if String.eqb sql Server.COUNT then Some Count
  else if String.eqb sql Server.SEARCH then Some Search
  else if String.eqb sql Server.DATE_RANGE then Some DateRange
  else if String.eqb sql Server.COMPLETE then Some Complete
  else None.

(** The text [parse] recognises as the statement. *)
Definition sql_of (st : Stmt) : string :=
  match st with
  | SelectAll => Server.SELECT_ALL
  | Insert => Server.INSERT
  | CreateTable => Server.CREATE_TABLE
  | UpdateText => Server.UPDATE_TEXT
  | Delete => Server.DELETE
  | SelectPage => Server.SELECT_PAGE
  | Count => Server.COUNT
  | Search => Server.SEARCH
  | DateRange => Server.DATE_RANGE
  | Complete => Server.COMPLETE
  end.

Definition quoted (s : string) : string := Server.dquote +:+ s +:+ Server.dquote.

Definition ALREADY_EXISTS : string := "relation " +:+ quoted "todos" +:+ " already exists".
Definition NOT_NULL_VIOLATION : string :=
  "null value in column " +:+ quoted "text" +:+ " of relation " +:+ quoted "todos"
  +:+ " violates not-null constraint".
Definition TOO_LONG : string := "value too long for type character varying(255)".
Definition DUPLICATE_KEY : string :=
  "duplicate key value violates unique constraint " +:+ quoted "todos_pkey".
Definition SEQUENCE_EXHAUSTED : string :=
  "nextval: reached maximum value of sequence " +:+ quoted "todos_id_seq"
  +:+ " (2147483647)".
Definition NO_COMPLETED : string :=
  "column " +:+ quoted "completed" +:+ " of relation " +:+ quoted "todos"
  +:+ " does not exist".
Definition NO_CREATED_AT : string := "column " +:+ quoted "created_at" +:+ " does not exist".
Definition NEGATIVE_LIMIT : string := "LIMIT must not be negative".
Definition NEGATIVE_OFFSET : string := "OFFSET must not be negative".
Definition BAD_ESCAPE : string := "LIKE pattern must not end with escape character".
Definition SYNTAX_ERROR : string := "syntax error".
Definition WRONG_ARITY : string :=
  "bind message supplies the wrong number of parameters".
Definition INVALID_BYTE : string :=
  "invalid byte sequence for encoding " +:+ quoted "UTF8" +:+ ": 0x00".

(** *** Input of integers

    Two readers for the codecs of the examples: the decimal syntax, which
    every version of the store reads and which is all that the versions
    before 16 read, and one that knows the hexadecimal form as well. *)

(** C's [isspace]. *)
Definition is_space (c : ascii) : bool :=
  ((9 <=? code c) && (code c <=? 13)) || (code c =? 32).

Definition is_digit (c : ascii) : bool := (48 <=? code c) && (code c <=? 57).

Fixpoint digits_only (s : string) : bool :=
  match s with
  | String c r => is_digit c && digits_only r
  | EmptyString => true
  end.

Fixpoint skip_spaces (s : string) : string :=
  match s with
  | String c r => if is_space c then skip_spaces r else s
  | EmptyString => EmptyString
  end.

Fixpoint all_spaces (s : string) : bool :=
  match s with
  | String c r => is_space c && all_spaces r
  | EmptyString => true
  end.

(** Decimal digits, at least one, then nothing but spaces. *)
Fixpoint read_digits (s : string) (acc : Z) (seen : bool) : option Z :=
  match s with
  | String c r =>
      if is_digit c then read_digits r (acc * 10 + (code c - 48)) true
      else if seen && all_spaces s then Some acc else None
  | EmptyString => if seen then Some acc else None
  end.

(** The decimal syntax of the integer types: spaces, an optional sign,
    digits, spaces. *)
Definition decimal (s : string) : option Z :=
  let '(neg, d) := strip_sign (skip_spaces s) in
  match read_digits d 0 false with
  | Some m => Some (if neg then - m else m)
  | None => None
  end.

(** Hexadecimal digits, at least one, then nothing but spaces. *)
Fixpoint read_hex (s : string) (acc : Z) (seen : bool) : option Z :=
  match s with
  | String c r =>
      match radix_digit 16 c with
      | Some d => read_hex r (acc * 16 + d) true
      | None => if seen && all_spaces s then Some acc else None
      end
  | EmptyString => if seen then Some acc else None
  end.

(** The decimal syntax and, after [0x], the hexadecimal one: one of the
    forms that version 16 of the store added. *)
Definition decimal_or_hex (s : string) : option Z :=
  let '(neg, d) := strip_sign (skip_spaces s) in
  let '(R, h) := strip_prefix d in
  if R =? 16 then
    match read_hex h 0 false with
    | Some m => Some (if neg then - m else m)
    | None => None
    end
  else decimal s.

(** Input of a value of integer type [type] with range [lo..hi], read by
    [read]: the value, or the message of the error raised. *)
Definition int_in (read : string -> option Z) (type : string) (lo hi : Z) (s : string)
  : string + Z :=
  match read s with
  | None => inl ("invalid input syntax for type " +:+ type +:+ ": " +:+ quoted s)
  | Some z =>
      if (lo <=? z) && (z <=? hi) then inr z
      else inl ("value " +:+ quoted s +:+ " is out of range for type " +:+ type)
  end.

Definition int4_decimal : string -> string + Z :=
  int_in decimal "integer" (- 2 ^ 31) (2 ^ 31 - 1).
Definition int8_decimal : string -> string + Z :=
  int_in decimal "bigint" (- 2 ^ 63) (2 ^ 63 - 1).

(** A parameter of integer type: NULL stays NULL. *)
Definition int_param (input : string -> string + Z) (p : option string)
  : string + option Z :=
  match p with
  | None => inr None
  | Some s => match input s with
              | inl message => inl message
              | inr z => inr (Some z)
              end
  end.

(** *** Text and [VARCHAR(255)] *)

Fixpoint has_nul (s : string) : bool :=
  match s with
  | String c r => (code c =? 0) || has_nul r
  | EmptyString => false
  end.

(** A parameter of a text type: the store refuses a NUL character when it
    reads the parameter, before the statement runs. *)
Definition text_param (p : option string) : string + option string :=
  match p with
  | Some s => if has_nul s then inl INVALID_BYTE else inr (Some s)
  | None => inr None
  end.

Fixpoint all_blank (s : string) : bool :=
  match s with
  | String c r => (code c =? 32) && all_blank r
  | EmptyString => true
  end.

Fixpoint take_string (n : nat) (s : string) : string :=
  match n, s with
  | S n', String c r => String c (take_string n' r)
  | _, _ => EmptyString
  end.

Fixpoint drop_string (n : nat) (s : string) : string :=
  match n, s with
  | S n', String _ r => drop_string n' r
  | _, _ => s
  end.

(** Assignment to the column: a longer string is an error unless the excess
    is blank, in which case it is cut. *)
Definition varchar255 (s : string) : string + string :=
  if (String.length s <=? 255)%nat then inr s
  else if all_blank (drop_string 255 s) then inr (take_string 255 s)
  else inl TOO_LONG.

(** *** [ILIKE] *)

Inductive Tok : Type :=
| Lit (c : ascii)
| One
| Any.

Definition BACKSLASH : ascii := ascii_of_nat 92.

(** A pattern as a list of tokens: [%] is any sequence, [_] any one
    character, a backslash makes the next character literal. [None] for a
    pattern that ends in a lone backslash. *)
Fixpoint tokens (p : string) : option (list Tok) :=
  match p with
  | EmptyString => Some []
  | String c r =>
      if Ascii.eqb c BACKSLASH then
        match r with
        | EmptyString => None
        | String d r' => cons (Lit d) <$> tokens r'
        end
      else if Ascii.eqb c "%" then cons Any <$> tokens r
      else if Ascii.eqb c "_" then cons One <$> tokens r
      else cons (Lit c) <$> tokens r
  end.

Fixpoint matches (p : list Tok) (s : string) : bool :=
  match p with
  | [] => match s with EmptyString => true | String _ _ => false end
  | Lit c :: p' =>
      match s with
      | String d s' => Ascii.eqb c d && matches p' s'
      | EmptyString => false
      end
  | One :: p' =>
      match s with
      | String _ s' => matches p' s'
      | EmptyString => false
      end
  | Any :: p' =>
      (fix skip (s : string) : bool :=
         matches p' s ||
         match s with
         | String _ s' => skip s'
         | EmptyString => false
         end) s
  end.

(** A string as a pattern that stands for itself: one literal per
    character. *)
Fixpoint lits (s : string) : list Tok :=
  match s with
  | String c r => Lit c :: lits r
  | EmptyString => []
  end.

Definition plain_char (c : ascii) : bool :=
  negb (Ascii.eqb c BACKSLASH || Ascii.eqb c "%" || Ascii.eqb c "_").

(** No character of [s] has a meaning of its own in a pattern. *)
Fixpoint plain (s : string) : bool :=
  match s with
  | String c r => plain_char c && plain r
  | EmptyString => true
  end.

(** *** The statements *)

Section Exec.
Context `{Codec}.

Fixpoint lower_string (s : string) : string :=
  match s with
  | String c r => String (lower c) (lower_string r)
  | EmptyString => EmptyString
  end.

(** The driver's text for a parameter; [None] is NULL. *)
Definition prepareValue (v : Value) : option string :=
  match v with
  | VUndefined | VNull => None
  | VStr s => Some s
  | VBool true => Some "true"
  | VBool false => Some "false"
  | VNum n => Some (Number_toString n)
  | VArr _ | VObj _ => Some (encode_composite v)
  end.

Definition cell {A} (f : A -> Value) (o : option A) : Value :=
  match o with
  | Some a => f a
  | None => VNull
  end.

(** A row as the driver hands it over: one property per column. *)
Definition row_value (t : Table) (id : Z) (r : Row) : Value :=
  VObj ([("id", VNum (Num id)); ("text", VStr (text r))]
        ++ match completed_column t with
           | Absent => []
           | Present _ => [("completed", cell VBool (completed r))]
           end
        ++ match created_at_column t with
           | Absent => []
           | Present _ => [("created_at", cell timestamp_out (created_at r))]
           end).

Definition row_values (t : Table) (l : list (Z * Row)) : list Value :=
  map (fun kr => row_value t (fst kr) (snd kr)) l.

Definition fail (message : string) (t : Table) : Server.Answer * Table :=
  (Server.Threw message, t).

(** The value assigned to the [text] column. *)
Definition coerce_text (p : option string) : string + option string :=
  match p with
  | None => inr None
  | Some s => match varchar255 s with
              | inl message => inl message
              | inr s' => inr (Some s')
              end
  end.

Definition select_all (t : Table) : Server.Answer * Table :=
  (Server.Result (row_values t (scan t)), t).

(** [INSERT ... RETURNING *]: the sequence gives the id, and keeps the value
    it gave even when the row is then refused. *)
Definition insert (p : option string) (t : Table) : Server.Answer * Table :=
  match text_param p with
  | inl message => fail message t
  | inr p' =>
      match coerce_text p' with
      | inl message => fail message t
      | inr v =>
          let id := next_id t in
          if 2 ^ 31 - 1 <? id then fail SEQUENCE_EXHAUSTED t
          else
            let t' := with_next_id t (id + 1) in
            match v with
            | None => fail NOT_NULL_VIOLATION t'
            | Some s =>
                match rows t !! id with
                | Some _ => fail DUPLICATE_KEY t'
                | None =>
                    let r := new_row t s in
                    (Server.Result [row_value t id r],
                     with_rows t' (<[id := r]> (rows t)))
                end
            end
      end
  end.

(** [UPDATE ... SET text = $1 WHERE id = $2 RETURNING *] *)
Definition update_text (p_text p_id : option string) (t : Table)
  : Server.Answer * Table :=
  match text_param p_text with
  | inl message => fail message t
  | inr p_text' =>
      match int_param int4_in p_id with
      | inl message => fail message t
      | inr oid =>
          match coerce_text p_text' with
          | inl message => fail message t
          | inr v =>
              match oid ≫= (fun id => pair id <$> rows t !! id) with
              | None => (Server.Result [], t)
              | Some (id, r) =>
                  match v with
                  | None => fail NOT_NULL_VIOLATION t
                  | Some s =>
                      let r' := {| text := s; completed := completed r;
                                   created_at := created_at r |} in
                      (Server.Result [row_value t id r'],
                       with_rows t (<[id := r']> (rows t)))
                  end
              end
          end
      end
  end.

(** [DELETE FROM todos WHERE id = $1]: no RETURNING clause, so no rows. *)
Definition delete_row (p_id : option string) (t : Table) : Server.Answer * Table :=
  match int_param int4_in p_id with
  | inl message => fail message t
  | inr None => (Server.Result [], t)
  | inr (Some id) => (Server.Result [], with_rows t (delete id (rows t)))
  end.

(** [UPDATE ... SET completed = TRUE WHERE id = $1 RETURNING *] *)
Definition complete (p_id : option string) (t : Table) : Server.Answer * Table :=
  match completed_column t with
  | Absent => fail NO_COMPLETED t
  | Present _ =>
      match int_param int4_in p_id with
      | inl message => fail message t
      | inr oid =>
          match oid ≫= (fun id => pair id <$> rows t !! id) with
          | None => (Server.Result [], t)
          | Some (id, r) =>
              let r' := completed_row r in
              (Server.Result [row_value t id r'], with_rows t (<[id := r']> (rows t)))
          end
      end
  end.

Definition below_zero (o : option Z) : bool :=
  match o with
  | Some z => z <? 0
  | None => false
  end.

(** [SELECT * ... LIMIT $1 OFFSET $2]: a NULL limit is no limit, a NULL
    offset is 0. *)
Definition select_page (p_limit p_offset : option string) (t : Table)
  : Server.Answer * Table :=
  match int_param int8_in p_limit with
  | inl message => fail message t
  | inr limit =>
      match int_param int8_in p_offset with
      | inl message => fail message t
      | inr offset =>
          if below_zero offset then fail NEGATIVE_OFFSET t
          else if below_zero limit then fail NEGATIVE_LIMIT t
          else
            let skipped := drop (Z.to_nat (default 0 offset)) (scan t) in
            let window := match limit with
                          | None => skipped
                          | Some l => take (Z.to_nat l) skipped
                          end in
            (Server.Result (row_values t window), t)
      end
  end.

(** The [COUNT] statement: one row; the count, a bigint, arrives as a string. *)
Definition count (t : Table) : Server.Answer * Table :=
  (Server.Result [VObj [("count", VStr (pretty (Z.of_nat (size (rows t)))))]], t).

(** [SELECT * ... WHERE text ILIKE $1]: pattern and text are put in lower
    case, then matched. A pattern that ends in a lone backslash is an
    error; the store raises it when the matcher gets there, here it is
    raised at once (no pattern the handler builds ends so: it always ends
    in [%]). *)
Definition search (p : option string) (t : Table) : Server.Answer * Table :=
  match text_param p with
  | inl message => fail message t
  | inr None => (Server.Result [], t)
  | inr (Some pattern) =>
      match tokens (lower_string pattern) with
      | None => fail BAD_ESCAPE t
      | Some toks =>
          (Server.Result
             (row_values t
                (List.filter (fun kr => matches toks (lower_string (text (snd kr))))
                             (scan t))), t)
      end
  end.

Definition timestamp_param (p : option string) : string + option Z :=
  match p with
  | None => inr None
  | Some s => match timestamp_in s with
              | None => inl ("invalid input syntax for type timestamp: " +:+ quoted s)
              | Some ts => inr (Some ts)
              end
  end.

Definition between (lo hi : option Z) (x : option Z) : bool :=
  match lo, hi, x with
  | Some l, Some h, Some v => (l <=? v) && (v <=? h)
  | _, _, _ => false
  end.

(** [SELECT * ... WHERE created_at BETWEEN $1 AND $2] *)
Definition date_range (p_start p_end : option string) (t : Table)
  : Server.Answer * Table :=
  match created_at_column t with
  | Absent => fail NO_CREATED_AT t
  | Present _ =>
      match timestamp_param p_start with
      | inl message => fail message t
      | inr lo =>
          match timestamp_param p_end with
          | inl message => fail message t
          | inr hi =>
              (Server.Result
                 (row_values t
                    (List.filter (fun kr => between lo hi (created_at (snd kr)))
                                 (scan t))), t)
          end
      end
  end.

(** A statement on an existing table. *)
Definition exec_table (st : Stmt) (params : list (option string)) (t : Table)
  : Server.Answer * Table :=
  match st, params with
  | SelectAll, [] => select_all t
  | Insert, [p] => insert p t
  | CreateTable, _ => fail ALREADY_EXISTS t
  | UpdateText, [p_text; p_id] => update_text p_text p_id t
  | Delete, [p_id] => delete_row p_id t
  | SelectPage, [p_limit; p_offset] => select_page p_limit p_offset t
  | Count, [] => count t
  | Search, [p] => search p t
  | DateRange, [p_start; p_end] => date_range p_start p_end t
  | Complete, [p_id] => complete p_id t
  | _, _ => fail WRONG_ARITY t
  end.

(** [pool.query] against the store. *)
Definition exec (q : Server.Query) (db : DB) : Server.Answer * DB :=
  match parse (Server.text q) with
  | None => (Server.Threw SYNTAX_ERROR, db)
  | Some st =>
      match db with
      | None =>
          match st with
          | CreateTable => (Server.Result [], Some created_table)
          | _ => (Server.Threw Server.MISSING_RELATION, None)
          end
      | Some t =>
          let '(a, t') := exec_table st (map prepareValue (Server.values q)) t in
          (a, Some t')
      end
  end.

(** One request served on a state of the store. *)
Definition serve (r : Server.Request) (db : DB)
  : Eff.Outcome Server.Query Server.Answer (string + Server.Response) DB :=
  Eff.run exec (Server.app r) db.

(** Requests served one after the other: the state they leave. *)
Definition serve_all (rs : list Server.Request) (db : DB) : DB :=
  fold_left (fun db r => Eff.final (serve r db)) rs db.

End Exec.

End Pg.

(* ===================================================================== *)
(** ** The client view: [TodoList], lines 160-257 of the same file *)
(* ===================================================================== *)

Module Client.
Import JS Eff.

(** One call [fetch(url, { method, headers, body })]; [body] is the value
    given to [JSON.stringify], if any. *)
Record Request : Type := {
  url : string;
  method : string;
  headers : list (string * string);
  body : option Value
}.

(** The promise rejects (the request did not complete), or resolves to a
    response, of which the component only calls [json()]: that rejects when
    the body is not JSON, and gives the parsed value otherwise. *)
Inductive Reply : Type :=
| Rejected (message : string)
| Responded (json : string + Value).

(** The component's state: [todos] and [input]. *)
Record State : Type := {
  todos : list Value;
  input : string
}.

Definition Action : Type := Prog Request Reply State.

Definition TODOS_URL : string := "http://localhost:3000/todos".

(** [await fetch(...)] inside a [try] block. *)
Definition fetch (r : Request) : Try Request Reply (string + Value) :=
  Await r (fun a => match a with
                    | Rejected message => throw message
                    | Responded json => ok json
                    end).

(** [await response.json()] inside a [try] block. *)
Definition response_json (response : string + Value) : Try Request Reply Value :=
  match response with
  | inl message => throw message
  | inr v => ok v
  end.

(** [addTodo]: the [catch] block only logs, so the state stays as it was. *)
Definition addTodo (s : State) : Action :=
  if truthy_string (trim (input s)) then
    try_catch
      (response <- fetch {| url := TODOS_URL;
                            method := "POST";
                            headers := [("Content-Type", "application/json")];
                            body := Some (VObj [("text", VStr (trim (input s)))]) |} ;;
       newTodo <- response_json response ;;
       ok {| todos := todos s ++ [newTodo]; input := "" |})%try
      (fun _ => Ret s)
  else Ret s.

(** The request [addTodo] makes for the trimmed text. *)
Definition POST_REQUEST (text : string) : Request :=
  {| url := TODOS_URL;
     method := "POST";
     headers := [("Content-Type", "application/json")];
     body := Some (VObj [("text", VStr text)]) |}.

(** [fetch('http://localhost:3000/todos')]: no init, so a GET with neither
    headers nor body. *)
Definition GET_REQUEST : Request :=
  {| url := TODOS_URL; method := "GET"; headers := []; body := None |}.

(** The template literal [`http://localhost:3000/todos/${id}`] for a number
    [id]. *)
Definition item_url (id : Z) : string :=
  TODOS_URL +:+ "/" +:+ Number_toString (Num id).

Definition DELETE_REQUEST (id : Z) : Request :=
  {| url := item_url id; method := "DELETE"; headers := []; body := None |}.

Definition PUT_REQUEST (id : Z) (newText : string) : Request :=
  {| url := item_url id;
     method := "PUT";
     headers := [("Content-Type", "application/json")];
     body := Some (VObj [("text", VStr newText)]) |}.

(** The state after [setTodos(data)]: [data] is whatever JSON the server
    sent, an array or not. *)
Record Fetched : Type := {
  fetched_todos : Value;
  fetched_input : string
}.

Definition unchanged (s : State) : Fetched :=
  {| fetched_todos := VArr (todos s); fetched_input := input s |}.

(** [fetchTodos], which the component calls once when it mounts. *)
Definition fetchTodos (s : State) : Prog Request Reply Fetched :=
  try_catch
    (response <- fetch GET_REQUEST ;;
     data <- response_json response ;;
     ok {| fetched_todos := data; fetched_input := input s |})%try
    (fun _ => Ret (unchanged s)).

(** [todo.id === id] for a number [id]: reading [id] off [null] or
    [undefined] throws. *)
Definition id_is (id : Z) (todo : Value) : string + bool :=
  match get_prop todo "id" with
  | inl message => inl message
  | inr (VNum (Num z)) => inr (z =? id)
  | inr _ => inr false
  end.

(** [todos.filter(todo => todo.id !== id)] *)
Fixpoint filter_out (id : Z) (l : list Value) : string + list Value :=
  match l with
  | [] => inr []
  | todo :: rest =>
      match id_is id todo with
      | inl message => inl message
      | inr same =>
          match filter_out id rest with
          | inl message => inl message
          | inr kept => inr (if same then kept else todo :: kept)
          end
      end
  end.

(** [todos.map(todo => todo.id === id ? updatedTodo : todo)] *)
Fixpoint replace_with (id : Z) (updatedTodo : Value) (l : list Value)
  : string + list Value :=
  match l with
  | [] => inr []
  | todo :: rest =>
      match id_is id todo with
      | inl message => inl message
      | inr same =>
          match replace_with id updatedTodo rest with
          | inl message => inl message
          | inr mapped => inr ((if same then updatedTodo else todo) :: mapped)
          end
      end
  end.

(** The item's [id] is the number [id]. *)
Definition has_id (id : Z) (todo : Value) : Prop :=
  get_prop todo "id" = inr (VNum (Num id)).

(** No item of the list is [null] or [undefined]. *)
Definition no_holes (l : list Value) : Prop :=
  Forall (fun todo => todo <> VNull /\ todo <> VUndefined) l.

(** [deleteTodo]: the response is awaited and not looked at. *)
Definition deleteTodo (id : Z) (s : State) : Action :=
  try_catch
    (_ <- fetch (DELETE_REQUEST id) ;;
     kept <- attempt (filter_out id (todos s)) ;;
     ok {| todos := kept; input := input s |})%try
    (fun _ => Ret s).

(** [editTodo] *)
Definition editTodo (id : Z) (newText : string) (s : State) : Action :=
  try_catch
    (response <- fetch (PUT_REQUEST id newText) ;;
     updatedTodo <- response_json response ;;
     mapped <- attempt (replace_with id updatedTodo (todos s)) ;;
     ok {| todos := mapped; input := input s |})%try
    (fun _ => Ret s).

End Client.

(* ===================================================================== *)
(** ** Sample data *)
(* ===================================================================== *)

(** A server that answers every request with the same row. *)
Definition echo_server (r : Client.Request) (s : unit) : Client.Reply * unit :=
  (Client.Responded (inr (JS.VObj [("id", JS.VNum (JS.Num 1)); ("text", JS.VStr "a")])), s).

(** The table POST /todos creates, holding the row it then inserts. *)
Definition healed_table : Pg.Table :=
  Pg.with_next_id
    (Pg.with_rows Pg.created_table
       {[ 1 := {| Pg.text := "Buy Milk"; Pg.completed := None; Pg.created_at := None |} ]})
    2.

(** A table provisioned with all four columns, holding one row. *)
Definition provisioned_table : Pg.Table :=
  {| Pg.completed_column := Pg.Present (Some false);
     Pg.created_at_column := Pg.Present None;
     Pg.rows := {[ 7 := {| Pg.text := "Walk the dog"; Pg.completed := Some false;
                           Pg.created_at := None |} ]};
     Pg.next_id := 8 |}.

(** A capital E with an acute accent, and the small one. *)
Definition E_ACUTE : ascii := ascii_of_nat 201.
Definition e_acute : ascii := ascii_of_nat 233.

(** A table provisioned with all four columns, holding two rows. *)
Definition two_row_table : Pg.Table :=
  {| Pg.completed_column := Pg.Present (Some false);
     Pg.created_at_column := Pg.Present None;
     Pg.rows := {[ 7 := {| Pg.text := "Walk the dog"; Pg.completed := Some false;
                           Pg.created_at := None |};
                   8 := {| Pg.text := String E_ACUTE "COLE"; Pg.completed := Some false;
                           Pg.created_at := None |} ]};
     Pg.next_id := 9 |}.

(* ===================================================================== *)
(** ** Facts about strings *)
(* ===================================================================== *)

Module StringFacts.
Import JS.

Lemma append_cons (c : ascii) (s t : string) :
  String c s +:+ t = String c (s +:+ t).
Proof. reflexivity. Qed.

Lemma append_nil_r (s : string) : s +:+ "" = s.
Proof.
  induction s as [|c s IH]; [reflexivity|].
  rewrite append_cons. f_equal. exact IH.
Qed.

Lemma append_assoc (a b c : string) : (a +:+ b) +:+ c = a +:+ (b +:+ c).
Proof.
  induction a as [|x a IH]; [reflexivity|].
  rewrite !append_cons. f_equal. exact IH.
Qed.

Lemma starts_with_spec (p s : string) :
  starts_with s p = true <-> exists post, s = p +:+ post.
Proof.
  revert s. induction p as [|a p IH]; intros s; simpl.
  - destruct s; (split; [intros _; eexists; reflexivity | reflexivity]).
  - destruct s as [|b s]; simpl.
    + split; [discriminate | intros [post Hp]; discriminate].
    + destruct (Ascii.eqb_spec a b) as [->|Hne].
      * rewrite IH. split; intros [post Hp]; exists post.
        -- rewrite append_cons. congruence.
        -- rewrite append_cons in Hp. congruence.
      * split; [discriminate | intros [post Hp]].
        rewrite append_cons in Hp. congruence.
Qed.

Lemma includes_unfold (s sub : string) :
  includes s sub =
  starts_with s sub ||
  match s with
  | String _ r => includes r sub
  | EmptyString => false
  end.
Proof. destruct s; reflexivity. Qed.

Lemma includes_contains (s sub : string) :
  includes s sub = true <-> contains s sub.
Proof.
  unfold contains. induction s as [|c s IH]; rewrite includes_unfold.
  - rewrite orb_false_r, starts_with_spec. split.
    + intros [post Hp]. now exists "", post.
    + intros [[|x pre] [post Hp]]; [now exists post | discriminate].
  - rewrite orb_true_iff, starts_with_spec, IH. split.
    + intros [[post Hp] | (pre & post & Hp)].
      * now exists "", post.
      * exists (String c pre), post. rewrite append_cons. now rewrite Hp.
    + intros ([|x pre] & post & Hp).
      * left. now exists post.
      * right. exists pre, post. rewrite append_cons in Hp. congruence.
Qed.

Lemma includes_not_contains (s sub : string) :
  includes s sub = false <-> ~ contains s sub.
Proof.
  rewrite <- includes_contains. destruct (includes s sub); split; congruence.
Qed.




End StringFacts.

(* ===================================================================== *)
(** ** Facts about numbers and their decimal text *)
(* ===================================================================== *)

Module NumberFacts.
Import JS Pg StringFacts.

Lemma double_small (z : Z) : Z.abs z < 2 ^ 53 -> double z = Num z.
Proof.
  intros Hz. unfold double.
  now replace (Z.abs z <? 2 ^ 53) with true by (symmetry; apply Z.ltb_lt; exact Hz).
Qed.

Lemma log2_ratio_bounds (n d : Z) :
  0 < n -> 0 < d ->
  Z.log2 n - Z.log2 d - 1 <= log2_ratio n d <= Z.log2 n - Z.log2 d.
Proof.
  intros Hn Hd. unfold log2_ratio.
  destruct (if 0 <=? Z.log2 n - Z.log2 d then _ else _); lia.
Qed.

(** [n / d] is at least [2 ^ log2_ratio n d]. *)
Lemma log2_ratio_low (n d : Z) :
  0 < n -> 0 < d ->
  let k := log2_ratio n d in
  (0 <= k -> d * 2 ^ k <= n) /\ (k < 0 -> d <= n * 2 ^ (- k)).
Proof.
  intros Hn Hd. cbv zeta. unfold log2_ratio.
  pose proof (Z.log2_spec n Hn) as [Hn1 Hn2].
  pose proof (Z.log2_spec d Hd) as [Hd1 Hd2].
  pose proof (Z.log2_nonneg n) as Hln. pose proof (Z.log2_nonneg d) as Hld.
  set (x := Z.log2 n) in *. set (y := Z.log2 d) in *.
  destruct (Z.leb_spec 0 (x - y)) as [Hk | Hk].
  - destruct (Z.leb_spec (d * 2 ^ (x - y)) n) as [Hle | Hgt].
    + split; [intros _; exact Hle | lia].
    + split.
      * intros Hk1.
        assert (Hpow : 2 ^ x = 2 ^ (x - y - 1) * 2 ^ (Z.succ y))
          by (rewrite <- Z.pow_add_r by lia; f_equal; lia).
        assert (0 < 2 ^ (x - y - 1)) by (apply Z.pow_pos_nonneg; lia).
        nia.
      * intros Hk1. assert (x - y = 0) as Hxy by lia.
        replace (- (x - y - 1)) with 1 by lia.
        assert (x = y) as Hx by lia. rewrite Hx in *.
        rewrite Z.pow_succ_r in Hd2 by lia. change (2 ^ 1) with 2. lia.
  - destruct (Z.leb_spec d (n * 2 ^ (- (x - y)))) as [Hle | Hgt].
    + split; [lia | intros _; exact Hle].
    + split; [lia|]. intros _.
      replace (- (x - y - 1)) with (Z.succ (y - x)) by lia.
      assert (Hpow : 2 ^ (Z.succ y) = 2 ^ x * 2 ^ (Z.succ (y - x)))
        by (rewrite <- Z.pow_add_r by lia; f_equal; lia).
      assert (0 < 2 ^ (Z.succ (y - x))) by (apply Z.pow_pos_nonneg; lia).
      nia.
Qed.


(** The arithmetic of the case that matters: a quotient scaled by [s],
    rounded to the nearest integer mantissa, has the ceiling of the
    quotient, as long as the dividend is below 2^53. *)
Lemma rounded_ceiling (a b s m r c : Z) (up : bool) :
  0 < b -> 0 < s ->
  a < 2 ^ 53 ->
  a * s = m * b + r -> 0 <= r < b ->
  2 ^ 52 <= m ->
  (c - 1) * b < a <= c * b ->
  (up = true -> 0 < r) ->
  (up = false -> 2 * r <= b) ->
  let m' := if up then m + 1 else m in
  (c - 1) * s < m' <= c * s.
Proof.
  intros Hb Hs Ha Hdiv Hr Hm Hc Hup Hdown. cbv zeta.
  assert (Hlow : (c - 1) * s <= m).
  { assert ((c - 1) * s * b < (m + 1) * b) by nia.
    assert ((c - 1) * s < m + 1) by (apply (Z.mul_lt_mono_pos_r b); lia).
    lia. }
  assert (Hhigh : m <= c * s).
  { assert (m * b <= c * s * b) by nia.
    apply (Z.mul_le_mono_pos_r _ _ b); lia. }
  destruct up.
  - specialize (Hup eq_refl). split; [lia|].
    assert (m * b < c * s * b) by nia.
    assert (m < c * s) by (apply (Z.mul_lt_mono_pos_r b); lia).
    lia.
  - specialize (Hdown eq_refl). split; [|exact Hhigh].
    destruct (Z.eq_dec m ((c - 1) * s)) as [Heq | Hne]; [|lia].
    exfalso.
    assert (Hr' : r = s * (a - (c - 1) * b)) by nia.
    assert (Hrs : s <= r) by nia.
    assert (Hc1 : 1 <= c - 1) by nia.
    assert (2 * m <= (c - 1) * b) by nia.
    lia.
Qed.

Lemma ceil_quotient_exact (a b : Z) :
  0 <= a < 2 ^ 53 -> 0 < b < 2 ^ 53 ->
  ceil_quotient a b = Num (- ((- a) / b)).
Proof.
  intros Ha Hb. unfold ceil_quotient.
  destruct (Z.eqb_spec a 0) as [-> | Ha0]; [reflexivity|].
  rewrite (Z.abs_eq a), (Z.abs_eq b) by lia.
  replace (a <? 0) with false by lia. replace (b <? 0) with false by lia.
  cbn [xorb].
  assert (Hapos : 0 < a) by lia.
  pose proof (log2_ratio_bounds a b Hapos ltac:(lia)) as Hk.
  pose proof (log2_ratio_low a b Hapos ltac:(lia)) as [Hlow0 Hlow1].
  cbv zeta in Hlow0, Hlow1.
  assert (Hla : Z.log2 a < 53) by (apply Z.log2_lt_pow2; lia).
  assert (Hlb : Z.log2 b < 53) by (apply Z.log2_lt_pow2; lia).
  pose proof (Z.log2_nonneg a) as Hla0. pose proof (Z.log2_nonneg b) as Hlb0.
  unfold nearest.
  set (k := log2_ratio a b) in *.
  replace (Z.max (k - 52) (- 1074)) with (k - 52) by lia.
  (* the ceiling of the quotient *)
  set (c := - ((- a) / b)).
  assert (Hc : (c - 1) * b < a <= c * b).
  { unfold c. pose proof (Z.div_mod (- a) b ltac:(lia)) as Hdm.
    pose proof (Z.mod_pos_bound (- a) b ltac:(lia)) as Hmod. nia. }
  destruct (Z.leb_spec 0 (k - 52)) as [He | He].
  - (* the quotient is at least 2^52: the divisor is 1 *)
    assert (k = 52) as Hk52 by lia.
    assert (Hb1 : b = 1).
    { specialize (Hlow0 ltac:(lia)). rewrite Hk52 in Hlow0.
      assert (b * 2 ^ 52 < 2 * 2 ^ 52) by (change (2 * 2 ^ 52) with (2 ^ 53); lia).
      assert (b < 2) by (apply (Z.mul_lt_mono_pos_r (2 ^ 52)); lia).
      lia. }
    subst b. rewrite Hk52. change (52 - 52) with 0. change (2 ^ 0) with 1.
    rewrite !Z.mul_1_r, Z.div_1_r, Z.mod_1_r.
    replace (1 <? 2 * 0) with false by reflexivity.
    replace (1 =? 2 * 0) with false by reflexivity.
    cbn [orb andb].
    replace (2 ^ 1024 <=? a) with false.
    + f_equal. unfold c. rewrite Z.div_1_r. lia.
    + symmetry. apply Z.leb_gt.
      apply Z.lt_trans with (2 ^ 53); [lia | reflexivity].
  - set (s := 2 ^ (- (k - 52))).
    assert (Hs : 0 < s) by (apply Z.pow_pos_nonneg; lia).
    set (m := a * s / b). set (r := (a * s) mod b).
    assert (Hdiv : a * s = m * b + r).
    { unfold m, r. pose proof (Z.div_mod (a * s) b ltac:(lia)). lia. }
    assert (Hr : 0 <= r < b) by (apply Z.mod_pos_bound; lia).
    assert (Hnorm : 2 ^ 52 * b <= a * s).
    { unfold s. destruct (Z.leb_spec 0 k) as [Hk0 | Hk0].
      - specialize (Hlow0 Hk0).
        replace (2 ^ 52) with (2 ^ k * 2 ^ (- (k - 52)))
          by (rewrite <- Z.pow_add_r by lia; f_equal; lia).
        assert (0 < 2 ^ (- (k - 52))) by (apply Z.pow_pos_nonneg; lia).
        nia.
      - specialize (Hlow1 Hk0).
        replace (2 ^ (- (k - 52))) with (2 ^ (- k) * 2 ^ 52)
          by (rewrite <- Z.pow_add_r by lia; f_equal; lia).
        nia. }
    assert (Hm : 2 ^ 52 <= m).
    { unfold m. apply Z.div_le_lower_bound; lia. }
    set (up := (b <? 2 * r) || ((b =? 2 * r) && Z.odd m)).
    pose proof (rounded_ceiling a b s m r c up ltac:(lia) Hs ltac:(lia) Hdiv Hr Hm Hc)
      as Hround.
    cbv zeta in Hround.
    assert (Hbounds : (c - 1) * s < (if up then m + 1 else m) <= c * s).
    { apply Hround.
      - unfold up. intros Hup. apply orb_true_iff in Hup as [Hup | Hup]; [lia|].
        apply andb_true_iff in Hup as [Hup _]. lia.
      - unfold up. intros Hup. apply orb_false_iff in Hup as [Hup _]. lia. }
    f_equal.
    set (m' := if up then m + 1 else m) in *.
    (* the ceiling of m' / s is c *)
    pose proof (Z.div_mod (- m') s ltac:(lia)) as Hdm.
    pose proof (Z.mod_pos_bound (- m') s Hs) as Hmod.
    nia.
Qed.

Lemma ceil_bounds (a b : Z) :
  0 < b -> (- ((- a) / b) - 1) * b < a <= - ((- a) / b) * b.
Proof.
  intros Hb. pose proof (Z.div_mod (- a) b ltac:(lia)) as Hdm.
  pose proof (Z.mod_pos_bound (- a) b Hb) as Hmod. nia.
Qed.


Lemma pretty_N_char_digit (d : N) :
  (d < 10)%N ->
  is_digit (pretty_N_char d) = true /\
  radix_digit 10 (pretty_N_char d) = Some (Z.of_N d) /\
  code (pretty_N_char d) - 48 = Z.of_N d.
Proof.
  intros Hd.
  assert (d = 0 \/ d = 1 \/ d = 2 \/ d = 3 \/ d = 4 \/ d = 5 \/ d = 6 \/ d = 7
          \/ d = 8 \/ d = 9)%N as Hcases by lia.
  repeat (destruct Hcases as [-> | Hcases]; [repeat split|]).
  subst d. repeat split.
Qed.

Lemma pretty_N_go_digits (x : N) (s : string) :
  digits_only (pretty_N_go x s) = digits_only s.
Proof.
  revert s. induction (N.lt_wf_0 x) as [x _ IH]; intros s.
  destruct (N.eq_dec x 0%N) as [-> | Hx]; [now rewrite pretty_N_go_0|].
  rewrite pretty_N_go_step by lia.
  rewrite IH by (apply N.div_lt; lia).
  cbn [digits_only].
  destruct (pretty_N_char_digit (x `mod` 10)) as [-> _]; [|reflexivity].
  apply N.mod_lt. lia.
Qed.

(** Scanning the decimal digits of [x] in front of [s] reads [x]. *)
Lemma scan_digits_pretty (x : N) (s : string) (seen : bool) :
  (0 < x)%N ->
  scan_digits 10 (pretty_N_go x s) 0 seen = scan_digits 10 s (Z.of_N x) true.
Proof.
  revert s seen. induction (N.lt_wf_0 x) as [x _ IH]; intros s seen Hx.
  rewrite pretty_N_go_step by exact Hx.
  destruct (pretty_N_char_digit (x `mod` 10)) as (_ & Hd & _);
    [apply N.mod_lt; lia|].
  assert (Hval : Z.of_N (x `div` 10) * 10 + Z.of_N (x `mod` 10) = Z.of_N x).
  { rewrite (N.div_mod x 10) at 3 by lia. lia. }
  destruct (N.eq_dec (N.div x 10) 0%N) as [H0 | Hpos].
  - rewrite H0, pretty_N_go_0. cbn [scan_digits]. rewrite Hd.
    rewrite H0 in Hval. now rewrite <- Hval.
  - rewrite IH; [| apply N.div_lt; lia | now apply N.neq_0_lt_0].
    cbn [scan_digits]. rewrite Hd. now rewrite Hval.
Qed.

Lemma read_digits_pretty (x : N) (s : string) (seen : bool) :
  (0 < x)%N ->
  read_digits (pretty_N_go x s) 0 seen = read_digits s (Z.of_N x) true.
Proof.
  revert s seen. induction (N.lt_wf_0 x) as [x _ IH]; intros s seen Hx.
  rewrite pretty_N_go_step by exact Hx.
  destruct (pretty_N_char_digit (x `mod` 10)) as (Hdig & _ & Hd);
    [apply N.mod_lt; lia|].
  assert (Hval : Z.of_N (x `div` 10) * 10 + Z.of_N (x `mod` 10) = Z.of_N x).
  { rewrite (N.div_mod x 10) at 3 by lia. lia. }
  destruct (N.eq_dec (N.div x 10) 0%N) as [H0 | Hpos].
  - rewrite H0, pretty_N_go_0. cbn [read_digits]. rewrite Hdig, Hd.
    rewrite H0 in Hval. now rewrite <- Hval.
  - rewrite IH; [| apply N.div_lt; lia | now apply N.neq_0_lt_0].
    cbn [read_digits]. rewrite Hdig, Hd. now rewrite Hval.
Qed.

(** A string of digits has no white space, sign or radix prefix to skip. *)
Lemma digits_only_plain (c : ascii) (r : string) :
  digits_only (String c r) = true ->
  trimStart (String c r) = String c r /\
  skip_spaces (String c r) = String c r /\
  strip_sign (String c r) = (false, String c r) /\
  strip_prefix (String c r) = (10, String c r).
Proof.
  cbn [digits_only]. intros [Hc Hr]%andb_true_iff.
  repeat split.
  - cbn [trimStart]. replace (is_whitespace c) with false; [reflexivity|].
    unfold is_whitespace, is_digit in *. lia.
  - cbn [skip_spaces]. replace (is_space c) with false; [reflexivity|].
    unfold is_space, is_digit in *. lia.
  - destruct c as [[] [] [] [] [] [] [] []]; try reflexivity; discriminate Hc.
  - destruct r as [|d r]; [destruct c as [[] [] [] [] [] [] [] []]; reflexivity|].
    cbn [digits_only] in Hr. apply andb_true_iff in Hr as [Hd _].
    destruct c as [[] [] [] [] [] [] [] []]; try reflexivity;
      destruct d as [[] [] [] [] [] [] [] []]; try reflexivity; discriminate Hd.
Qed.

(** [parseInt] reads back the decimal text of a natural number, as a
    double. *)
Lemma parseInt_pretty (n : N) :
  parseInt (VStr (pretty (Z.of_N n))) = inr (double (Z.of_N n)).
Proof.
  unfold parseInt. cbn [ToString]. f_equal.
  destruct n as [|p]; [reflexivity|].
  change (pretty (Z.of_N (N.pos p))) with (pretty_N_go (N.pos p) "").
  destruct (pretty_N_go (N.pos p) "") as [|c r] eqn:Hs.
  { pose proof (scan_digits_pretty (N.pos p) "" false ltac:(lia)) as Hscan.
    rewrite Hs in Hscan. discriminate Hscan. }
  assert (Hdig : digits_only (String c r) = true)
    by (rewrite <- Hs; apply pretty_N_go_digits).
  destruct (digits_only_plain c r Hdig) as (Ht & _ & Hsign & Hpre).
  unfold parseInt_string. rewrite Ht, Hsign, Hpre, <- Hs.
  rewrite scan_digits_pretty by lia. reflexivity.
Qed.

Lemma pretty_pos_shape (p : positive) :
  exists c r, pretty_N_go (N.pos p) "" = String c r /\ digits_only (String c r) = true.
Proof.
  destruct (pretty_N_go (N.pos p) "") as [|c r] eqn:Hs.
  - pose proof (scan_digits_pretty (N.pos p) "" false ltac:(lia)) as Hscan.
    rewrite Hs in Hscan. discriminate Hscan.
  - exists c, r. split; [reflexivity|]. rewrite <- Hs. apply pretty_N_go_digits.
Qed.

(** The store's integer input reads back the decimal text of an integer. *)
Lemma decimal_pretty (z : Z) : decimal (pretty z) = Some z.
Proof.
  destruct z as [|p|p]; [reflexivity| |].
  - change (pretty (Z.pos p)) with (pretty_N_go (N.pos p) "").
    destruct (pretty_pos_shape p) as (c & r & Hs & Hdig).
    destruct (digits_only_plain c r Hdig) as (_ & Hskip & Hsign & _).
    unfold decimal. rewrite Hs, Hskip, Hsign, <- Hs.
    rewrite read_digits_pretty by lia. reflexivity.
  - change (pretty (Z.neg p)) with (String "-" (pretty_N_go (N.pos p) "")).
    unfold decimal. cbn [skip_spaces]. change (is_space "-") with false.
    cbn [strip_sign]. rewrite read_digits_pretty by lia.
    cbn [read_digits]. f_equal.
Qed.

(** So does a reader that knows the hexadecimal form as well. *)
Lemma decimal_or_hex_pretty (z : Z) : decimal_or_hex (pretty z) = Some z.
Proof.
  transitivity (decimal (pretty z)); [|apply decimal_pretty].
  destruct z as [|p|p]; [reflexivity| |].
  - change (pretty (Z.pos p)) with (pretty_N_go (N.pos p) "").
    destruct (pretty_pos_shape p) as (c & r & Hs & Hdig).
    destruct (digits_only_plain c r Hdig) as (_ & Hskip & Hsign & Hpre).
    unfold decimal_or_hex. now rewrite Hs, Hskip, Hsign, Hpre.
  - change (pretty (Z.neg p)) with (String "-" (pretty_N_go (N.pos p) "")).
    destruct (pretty_pos_shape p) as (c & r & Hs & Hdig).
    destruct (digits_only_plain c r Hdig) as (_ & _ & _ & Hpre).
    unfold decimal_or_hex. cbn [skip_spaces]. change (is_space "-") with false.
    cbn [strip_sign]. now rewrite Hs, Hpre.
Qed.

Lemma int_in_pretty (read : string -> option Z) (type : string) (lo hi : Z) :
  (forall z, read (pretty z) = Some z) ->
  forall z, lo <= z <= hi -> int_in read type lo hi (pretty z) = inr z.
Proof.
  intros Hread z Hz. unfold int_in. rewrite Hread.
  now replace ((lo <=? z) && (z <=? hi)) with true by lia.
Qed.

Lemma int_in_pretty_inv (read : string -> option Z) (type : string) (lo hi : Z) :
  (forall z, read (pretty z) = Some z) ->
  forall z z', int_in read type lo hi (pretty z) = inr z' -> z' = z.
Proof.
  intros Hread z z'. unfold int_in. rewrite Hread.
  destruct ((lo <=? z) && (z <=? hi)); [now intros [= <-] | discriminate].
Qed.

(** Below 2^53 a number prints as the integer it is. *)
Lemma Number_toString_small (z : Z) :
  Z.abs z < 2 ^ 53 -> Number_toString (Num z) = pretty z.
Proof.
  intros Hz. unfold Number_toString, unsigned_toString.
  destruct z as [|p|p].
  - reflexivity.
  - change (Z.pos p <? 0) with false. cbn match.
    destruct (Z.ltb_spec (Z.pos p) (2 ^ 53)) as [_ | Hge]; [reflexivity | lia].
  - change (Z.neg p <? 0) with true. cbn match.
    change (- Z.neg p) with (Z.pos p).
    destruct (Z.ltb_spec (Z.pos p) (2 ^ 53)) as [_ | Hge]; [reflexivity | lia].
Qed.

Lemma parseInt_decimal (z : Z) :
  0 <= z < 2 ^ 53 -> parseInt (VStr (pretty z)) = inr (Num z).
Proof.
  intros Hz. rewrite <- (Z2N.id z) by lia.
  rewrite parseInt_pretty, double_small; [reflexivity | lia].
Qed.

Lemma ascii_lower_other (c : ascii) : 128 <= code c -> 128 <= code (ascii_lower c).
Proof.
  intros Hc. unfold ascii_lower.
  now replace ((65 <=? code c) && (code c <=? 90)) with false by lia.
Qed.

Lemma latin1_lower_ascii (c : ascii) : code c < 128 -> latin1_lower c = ascii_lower c.
Proof.
  intros Hc. unfold latin1_lower.
  now replace ((192 <=? code c) && (code c <=? 222) && negb (code c =? 215))
    with false by lia.
Qed.

Lemma latin1_lower_other (c : ascii) : 128 <= code c -> 128 <= code (latin1_lower c).
Proof.
  intros Hc. destruct c as [[] [] [] [] [] [] [] []];
    try (exfalso; apply Hc; reflexivity); vm_compute; discriminate.
Qed.

End NumberFacts.

(* ===================================================================== *)
(** ** Two codecs to run examples with *)
(* ===================================================================== *)

(** A store that reads integers in decimal only (as the versions before 16
    do), lowers the letters A-Z only (the C locale), and returns rows in
    the order of their ids. *)
Definition sample_codec : Pg.Codec :=
  {| Pg.encode_composite := fun _ => "{}";
     Pg.timestamp_in := fun _ => None;
     Pg.timestamp_out := fun ts => JS.VNum (JS.Num ts);
     Pg.int4_in := Pg.int4_decimal;
     Pg.int8_in := Pg.int8_decimal;
     Pg.lower := Pg.ascii_lower;
     Pg.scan := fun t => map_to_list (Pg.rows t);
     Pg.int4_in_decimal :=
       NumberFacts.int_in_pretty Pg.decimal "integer" (- 2 ^ 31) (2 ^ 31 - 1)
         NumberFacts.decimal_pretty;
     Pg.int8_in_decimal :=
       NumberFacts.int_in_pretty Pg.decimal "bigint" (- 2 ^ 63) (2 ^ 63 - 1)
         NumberFacts.decimal_pretty;
     Pg.int8_in_exact :=
       NumberFacts.int_in_pretty_inv Pg.decimal "bigint" (- 2 ^ 63) (2 ^ 63 - 1)
         NumberFacts.decimal_pretty;
     Pg.lower_ascii := fun c _ => eq_refl;
     Pg.lower_other := NumberFacts.ascii_lower_other;
     Pg.scan_rows := fun t => reflexivity (map_to_list (Pg.rows t)) |}.

(** A store that also reads the hexadecimal form of an integer, lowers the
    capital letters of Latin-1, and returns rows from the highest id to the
    lowest. *)
Definition other_codec : Pg.Codec :=
  {| Pg.encode_composite := fun _ => "{}";
     Pg.timestamp_in := fun _ => None;
     Pg.timestamp_out := fun ts => JS.VNum (JS.Num ts);
     Pg.int4_in := Pg.int_in Pg.decimal_or_hex "integer" (- 2 ^ 31) (2 ^ 31 - 1);
     Pg.int8_in := Pg.int_in Pg.decimal_or_hex "bigint" (- 2 ^ 63) (2 ^ 63 - 1);
     Pg.lower := Pg.latin1_lower;
     Pg.scan := fun t => rev (map_to_list (Pg.rows t));
     Pg.int4_in_decimal :=
       NumberFacts.int_in_pretty Pg.decimal_or_hex "integer" (- 2 ^ 31) (2 ^ 31 - 1)
         NumberFacts.decimal_or_hex_pretty;
     Pg.int8_in_decimal :=
       NumberFacts.int_in_pretty Pg.decimal_or_hex "bigint" (- 2 ^ 63) (2 ^ 63 - 1)
         NumberFacts.decimal_or_hex_pretty;
     Pg.int8_in_exact :=
       NumberFacts.int_in_pretty_inv Pg.decimal_or_hex "bigint" (- 2 ^ 63) (2 ^ 63 - 1)
         NumberFacts.decimal_or_hex_pretty;
     Pg.lower_ascii := NumberFacts.latin1_lower_ascii;
     Pg.lower_other := NumberFacts.latin1_lower_other;
     Pg.scan_rows := fun t => Permutation_sym (Permutation_rev (map_to_list (Pg.rows t))) |}.

(* ===================================================================== *)
(** ** The handlers against any store *)
(* ===================================================================== *)

Section AnyStore.
Import JS Eff Server StringFacts NumberFacts.

Context {S : Type} (env : Query -> S -> Answer * S).





(** C5. When the query of GET /todos fails, the answer is a 500 chosen by
    looking for the missing-relation phrase in the error text: the fixed
    message about the missing table when the phrase occurs, and the
    driver's own message otherwise. *)
Theorem get_todos_classifies_errors (s s' : S) (message : string) :
  env SELECT_ALL_QUERY s = (Threw message, s') ->
  let o := run env get_todos s in
  status (result o) = 500 /\
  (contains message MISSING_RELATION ->
   body (result o) = VObj [("error", VStr NO_TABLE_MESSAGE)]) /\
  (~ contains message MISSING_RELATION ->
   body (result o) = VObj [("error", VStr message)]) /\
  trace o = [(SELECT_ALL_QUERY, Threw message)] /\
  final o = s'.
Proof.
  intros Henv. unfold get_todos, SELECT_ALL_QUERY in *.
  cbn [run bind bind_try try_catch pool_query ok throw].
  rewrite Henv.
  cbn [run bind bind_try try_catch pool_query ok throw].
  destruct (includes message MISSING_RELATION) eqn:Hinc;
    cbn [run result final trace status body res_status_json error_body].
  - apply includes_contains in Hinc. repeat split; tauto.
  - apply includes_not_contains in Hinc. repeat split; tauto.
Qed.

(** C4. When the first INSERT of POST /todos fails: if the error text names
    the missing relation, the handler sends the CREATE TABLE statement
    (columns [id] and [text] only: the table it makes has neither
    [completed] nor [created_at]) and then the same INSERT once more; it
    answers with the row of that second INSERT, or with a 500 carrying the
    message of whichever of the two statements failed. For any other error
    text it answers 500 at once and sends nothing else. *)
Theorem post_todos_self_heal (text : Value) (s s1 : S) (message : string) :
  env (INSERT_QUERY text) s = (Threw message, s1) ->
  let o := run env (post_todos text) s in
  (~ contains message MISSING_RELATION ->
   result o = res_status_json 500 (VObj [("error", VStr message)]) /\
   trace o = [(INSERT_QUERY text, Threw message)] /\
   final o = s1) /\
  (contains message MISSING_RELATION ->
   (forall message2 s2,
       env CREATE_QUERY s1 = (Threw message2, s2) ->
       result o = res_status_json 500 (VObj [("error", VStr message2)]) /\
       trace o = [(INSERT_QUERY text, Threw message);
                  (CREATE_QUERY, Threw message2)] /\
       final o = s2) /\
   (forall created s2,
       env CREATE_QUERY s1 = (Result created, s2) ->
       (forall message3 s3,
           env (INSERT_QUERY text) s2 = (Threw message3, s3) ->
           result o = res_status_json 500 (VObj [("error", VStr message3)]) /\
           trace o = [(INSERT_QUERY text, Threw message);
                      (CREATE_QUERY, Result created);
                      (INSERT_QUERY text, Threw message3)] /\
           final o = s3) /\
       (forall rows s3,
           env (INSERT_QUERY text) s2 = (Result rows, s3) ->
           result o = res_json (index0 rows) /\
           trace o = [(INSERT_QUERY text, Threw message);
                      (CREATE_QUERY, Result created);
                      (INSERT_QUERY text, Result rows)] /\
           final o = s3))) /\
  (forall codec : Pg.Codec,
      exists t, Pg.exec CREATE_QUERY None = (Result [], Some t) /\
                Pg.completed_column t = Pg.Absent /\
                Pg.created_at_column t = Pg.Absent /\
                Pg.rows t = ∅).
Proof.
  intros Henv. unfold post_todos, INSERT_QUERY, CREATE_QUERY in *.
  cbn [run bind bind_try try_catch pool_query ok throw].
  rewrite Henv.
  cbn [run bind bind_try try_catch pool_query ok throw].
  split; [|split].
  - intros Hno. apply includes_not_contains in Hno. rewrite Hno.
    cbn. repeat split.
  - intros Hyes. apply includes_contains in Hyes. rewrite Hyes.
    cbn [run bind bind_try try_catch pool_query ok throw].
    split.
    + intros message2 s2 Hc. rewrite Hc. cbn. repeat split.
    + intros created s2 Hc. rewrite Hc.
      cbn [run bind bind_try try_catch pool_query ok throw].
      split; intros x s3 Hi; rewrite Hi; cbn; repeat split.
  - intros codec. exists Pg.created_table. repeat split.
Qed.




End AnyStore.
(* ===================================================================== *)
(** ** The client against any server *)
(* ===================================================================== *)

Section AnyServer.
Import JS Eff Client.

Context {S : Type} (net : Request -> S -> Reply * S).

(** C9. [addTodo] sends a request exactly when the trimmed input is not
    empty. It is then one POST of the trimmed text; when the server's reply
    parses to an object, that object is appended to [todos] and [input]
    becomes empty. With an empty trimmed input nothing is sent and the
    state is unchanged. *)
Theorem addTodo_posts_trimmed_text (st : State) (s : S) :
  let text := trim (input st) in
  let o := run net (addTodo st) s in
  (trace o <> [] <-> text <> "") /\
  (text = "" -> trace o = [] /\ result o = st /\ final o = s) /\
  (text <> "" ->
   exists reply,
     net (POST_REQUEST text) s = (reply, final o) /\
     trace o = [(POST_REQUEST text, reply)] /\
     (forall newTodo,
         reply = Responded (inr newTodo) ->
         result o = {| todos := todos st ++ [newTodo]; input := "" |}) /\
     ((forall newTodo, reply <> Responded (inr newTodo)) -> result o = st)).
Proof.
  cbv zeta. unfold addTodo, POST_REQUEST.
  destruct (trim (input st)) as [|c text] eqn:Htrim; cbn [truthy_string].
  - cbn. repeat split; congruence.
  - cbn [run bind bind_try try_catch fetch ok throw].
    destruct (net _ s) as [reply s1] eqn:Hnet.
    cbn [trace result final]. split; [split; congruence|].
    split; [discriminate|]. intros _. exists reply.
    destruct reply as [m | [m | v]]; cbn; (split; [reflexivity|]);
      (split; [reflexivity|]); (split; [intros newTodo [= <-]; reflexivity|]).
    + reflexivity.
    + reflexivity.
    + intros Hnot. now destruct (Hnot v).
Qed.

End AnyServer.

(* ===================================================================== *)
(** ** Facts about patterns *)
(* ===================================================================== *)

Module LikeFacts.
Import JS Pg StringFacts.

Lemma matches_any_unfold (p : list Tok) (s : string) :
  matches (Any :: p) s =
  matches p s ||
  match s with
  | String _ s' => matches (Any :: p) s'
  | EmptyString => false
  end.
Proof. destruct s; reflexivity. Qed.

Lemma matches_any_nil (s : string) : matches [Any] s = true.
Proof.
  induction s as [|c s IH]; [reflexivity|].
  rewrite matches_any_unfold, IH. apply orb_true_r.
Qed.

Lemma matches_any_any (s : string) : matches [Any; Any] s = true.
Proof. now rewrite matches_any_unfold, matches_any_nil. Qed.

(** Literals followed by [%]: the text starts with them. *)
Lemma matches_lits_any (p s : string) :
  matches (lits p ++ [Any])%list s = starts_with s p.
Proof.
  revert s. induction p as [|a p IH]; intros s.
  - destruct s; apply matches_any_nil.
  - destruct s as [|b s]; [reflexivity|].
    cbn [lits app matches starts_with]. rewrite IH.
    now destruct (Ascii.eqb a b).
Qed.

(** [%], literals, [%]: the literals occur in the text. *)
Lemma matches_substring (p s : string) :
  matches (Any :: lits p ++ [Any])%list s = includes s p.
Proof.
  induction s as [|c s IH];
    rewrite matches_any_unfold, includes_unfold, matches_lits_any;
    [reflexivity | now rewrite IH].
Qed.

Lemma tokens_plain_any (s : string) :
  plain s = true -> tokens (s +:+ "%") = Some (lits s ++ [Any])%list.
Proof.
  induction s as [|c s IH]; [reflexivity|].
  cbn [plain]. intros [Hc Hs]%andb_true_iff.
  rewrite append_cons. cbn [tokens lits app].
  unfold plain_char in Hc. apply negb_true_iff in Hc.
  apply orb_false_iff in Hc as [Hc H3]. apply orb_false_iff in Hc as [H1 H2].
  rewrite H1, H2, H3, (IH Hs). reflexivity.
Qed.

Lemma tokens_unfold (c : ascii) (r : string) :
  tokens (String c r) =
  if Ascii.eqb c BACKSLASH then
    match r with
    | EmptyString => None
    | String d r' => cons (Lit d) <$> tokens r'
    end
  else if Ascii.eqb c "%" then cons Any <$> tokens r
  else if Ascii.eqb c "_" then cons One <$> tokens r
  else cons (Lit c) <$> tokens r.
Proof. reflexivity. Qed.

(** A pattern that ends in [%] is well formed, whatever comes before. *)
Lemma tokens_before_percent (s : string) :
  is_Some (tokens (s +:+ "%")) /\
  forall c, is_Some (tokens (String c s +:+ "%")).
Proof.
  induction s as [|a s [IH1 IH2]].
  - split; [now eexists|]. intros c. rewrite append_cons, tokens_unfold.
    destruct (Ascii.eqb c BACKSLASH); [now eexists|].
    destruct (Ascii.eqb c "%"); [now eexists|].
    destruct (Ascii.eqb c "_"); now eexists.
  - split; [apply IH2|]. intros c. rewrite !append_cons, tokens_unfold.
    specialize (IH2 a). rewrite append_cons in IH2.
    destruct IH1 as [toks1 H1]. destruct IH2 as [toks2 H2].
    destruct (Ascii.eqb c BACKSLASH); [rewrite H1; now eexists|].
    rewrite H2.
    destruct (Ascii.eqb c "%"); [now eexists|].
    destruct (Ascii.eqb c "_"); now eexists.
Qed.

Lemma plain_char_ascii_lower (c : ascii) : plain_char (ascii_lower c) = plain_char c.
Proof. destruct c as [[] [] [] [] [] [] [] []]; reflexivity. Qed.

Lemma plain_char_other (c : ascii) : 128 <= code c -> plain_char c = true.
Proof.
  intros Hc. destruct c as [[] [] [] [] [] [] [] []]; try reflexivity;
    exfalso; apply Hc; reflexivity.
Qed.

Lemma has_nul_app (a b : string) : has_nul (a +:+ b) = has_nul a || has_nul b.
Proof.
  induction a as [|c a IH]; [reflexivity|].
  rewrite append_cons. cbn [has_nul]. now rewrite IH, orb_assoc.
Qed.

Section WithCodec.
Context `{Codec}.

Lemma lower_string_app (a b : string) :
  lower_string (a +:+ b) = lower_string a +:+ lower_string b.
Proof.
  induction a as [|c a IH]; [reflexivity|].
  rewrite append_cons. cbn [lower_string]. rewrite append_cons. now rewrite IH.
Qed.

(** Lower-casing neither makes nor unmakes a pattern character. *)
Lemma plain_char_lower (c : ascii) : plain_char (lower c) = plain_char c.
Proof.
  destruct (Z.lt_ge_cases (code c) 128) as [Hlow | Hhigh].
  - rewrite lower_ascii by exact Hlow. apply plain_char_ascii_lower.
  - rewrite (plain_char_other c Hhigh).
    apply plain_char_other, lower_other, Hhigh.
Qed.

Lemma plain_lower (s : string) : plain (lower_string s) = plain s.
Proof.
  induction s as [|c s IH]; [reflexivity|].
  cbn [lower_string plain]. now rewrite plain_char_lower, IH.
Qed.

Lemma lower_percent : lower_string "%" = "%".
Proof. cbn [lower_string]. now rewrite lower_ascii by reflexivity. Qed.

(** The pattern the search handler builds from a plain text. *)
Lemma tokens_search_pattern (s : string) :
  plain s = true ->
  tokens (lower_string ("%" +:+ s +:+ "%")) =
  Some (Any :: lits (lower_string s) ++ [Any])%list.
Proof.
  intros Hs. rewrite !lower_string_app, lower_percent.
  change ("%" +:+ (lower_string s +:+ "%")) with (String "%" (lower_string s +:+ "%")).
  cbn [tokens]. change (Ascii.eqb "%" BACKSLASH) with false.
  change (Ascii.eqb "%" "%") with true. cbn match.
  rewrite tokens_plain_any by now rewrite plain_lower.
  reflexivity.
Qed.

(** Every pattern the search handler builds is well formed. *)
Lemma tokens_like_pattern (s : string) :
  is_Some (tokens (lower_string ("%" +:+ s +:+ "%"))).
Proof.
  rewrite !lower_string_app, lower_percent.
  rewrite <- append_assoc. apply tokens_before_percent.
Qed.

(** A row is in the scan when it is in the table. *)
Lemma scan_In (t : Table) (j : Z) (r : Row) :
  In (j, r) (scan t) <-> rows t !! j = Some r.
Proof.
  rewrite <- elem_of_map_to_list, <- list_elem_of_In.
  split; intros Hin.
  - now rewrite <- (scan_rows t).
  - now rewrite (scan_rows t).
Qed.

Lemma scan_length (t : Table) : length (scan t) = size (rows t).
Proof. now rewrite (scan_rows t), length_map_to_list. Qed.

End WithCodec.

End LikeFacts.
(* ===================================================================== *)
(** ** The handlers against the store *)
(* ===================================================================== *)

Section OnStore.
Import JS Eff Server Pg StringFacts LikeFacts.

Context `{Codec}.

Lemma exec_delete (id : string) (db : DB) :
  exec (DELETE_QUERY id) db =
  match db with
  | None => (Threw MISSING_RELATION, None)
  | Some t =>
      match int4_in id with
      | inl message => (Threw message, Some t)
      | inr z => (Result [], Some (with_rows t (delete z (rows t))))
      end
  end.
Proof.
  destruct db as [t|]; [|reflexivity].
  change (exec (DELETE_QUERY id) (Some t))
    with (let '(a, t') := delete_row (Some id) t in (a, Some t')).
  unfold delete_row, int_param. destruct (int4_in id); reflexivity.
Qed.

(** DELETE /todos/:id, in full. *)
Lemma serve_delete (id : string) (db : DB) :
  serve (DeleteTodo id) db =
  match db with
  | None =>
      {| result := inr (res_status_json 500 (error_body MISSING_RELATION));
         final := None;
         trace := [(DELETE_QUERY id, Threw MISSING_RELATION)] |}
  | Some t =>
      match int4_in id with
      | inl message =>
          {| result := inr (res_status_json 500 (error_body message));
             final := Some t;
             trace := [(DELETE_QUERY id, Threw message)] |}
      | inr z =>
          {| result := inr (res_json DELETED);
             final := Some (with_rows t (delete z (rows t)));
             trace := [(DELETE_QUERY id, Result [])] |}
      end
  end.
Proof.
  unfold serve, app, caught, delete_todo.
  cbn [run bind bind_try try_catch pool_query ok throw].
  change {| Server.text := DELETE; values := [VStr id] |} with (DELETE_QUERY id).
  rewrite exec_delete.
  destruct db as [t|]; [destruct (int4_in id)|]; reflexivity.
Qed.

(** C1, as amended. DELETE /todos/:id answers [{ message: "Todo deleted" }]
    exactly when the statement does not fail, that is when the table exists
    and the store reads the id as an integer; whether a row has that id
    makes no difference. Otherwise it answers 500 with the message of the
    failed statement. In every state, failing ones included, a second
    DELETE of the same id gives the same response and leaves the same state
    as the first. *)
Theorem delete_todo_idempotent (id : string) (db : DB) :
  let once := serve (DeleteTodo id) db in
  let twice := serve (DeleteTodo id) (final once) in
  (result once = inr (res_json (VObj [("message", VStr "Todo deleted")])) <->
   exists t z, db = Some t /\ int4_in id = inr z) /\
  (result once = inr (res_json (VObj [("message", VStr "Todo deleted")])) \/
   exists message,
     trace once = [(DELETE_QUERY id, Threw message)] /\
     result once = inr (res_status_json 500 (VObj [("error", VStr message)]))) /\
  result twice = result once /\
  final twice = final once.
Proof.
  cbv zeta. rewrite !serve_delete.
  destruct db as [t|]; [destruct (int4_in id) as [message|z] eqn:Hid|];
    cbn [final result trace].
  - split; [split; [discriminate | intros (t0 & z & _ & Hz); discriminate Hz]|].
    split; [right; now eexists|]. split; reflexivity.
  - cbn [rows with_rows]. rewrite delete_delete_eq.
    split; [split; eauto|]. split; [now left|]. split; reflexivity.
  - split; [split; [discriminate | intros (t0 & z & Hdb & _); discriminate Hdb]|].
    split; [right; now eexists|]. split; reflexivity.
Qed.

(** C10. DELETE /todos/:id sends the one DELETE statement and nothing else.
    On an existing table it leaves the columns and the sequence alone; the
    rows afterwards are those from before without the row whose id is the
    integer the store reads the path parameter as: every other row is as it
    was, no row is added, and at most one is removed. When the store does
    not read the parameter as an integer no row changes; without a table
    there is still none afterwards. *)
Theorem delete_todo_frame (id : string) (db : DB) :
  let o := serve (DeleteTodo id) db in
  map fst (trace o) = [DELETE_QUERY id] /\
  match db with
  | None => final o = None
  | Some t =>
      exists t',
        final o = Some t' /\
        completed_column t' = completed_column t /\
        created_at_column t' = created_at_column t /\
        next_id t' = next_id t /\
        (forall z, int4_in id = inr z -> rows t' = delete z (rows t)) /\
        ((forall z, int4_in id <> inr z) -> rows t' = rows t) /\
        (forall j, int4_in id <> inr j -> rows t' !! j = rows t !! j) /\
        (forall j r, rows t' !! j = Some r -> rows t !! j = Some r) /\
        (size (rows t) <= S (size (rows t')))%nat
  end.
Proof.
  cbv zeta. rewrite serve_delete.
  destruct db as [t|]; [destruct (int4_in id) as [message|z] eqn:Hid|];
    cbn [final trace map fst].
  - split; [reflexivity|]. exists t. repeat split; auto. intros z Hz. discriminate Hz.
  - split; [reflexivity|]. exists (with_rows t (delete z (rows t))).
    cbn [rows with_rows completed_column created_at_column next_id].
    repeat split.
    + now intros z' [= <-].
    + intros Hnot. now destruct (Hnot z).
    + intros j Hj. apply lookup_delete_ne. congruence.
    + intros j r Hr. apply lookup_delete_Some in Hr. tauto.
    + destruct (rows t !! z) as [r|] eqn:Hz.
      * rewrite map_size_delete_Some by (rewrite Hz; eauto). lia.
      * rewrite map_size_delete_None by exact Hz. lia.
  - split; reflexivity.
Qed.

Lemma serve_complete (id : string) (t : Table) (d : option bool) (z : Z) (r : Row) :
  completed_column t = Present d ->
  int4_in id = inr z ->
  rows t !! z = Some r ->
  serve (PatchComplete id) (Some t) =
  {| result := inr (res_json (row_value t z (completed_row r)));
     final := Some (with_rows t (<[z := completed_row r]> (rows t)));
     trace := [(COMPLETE_QUERY id, Result [row_value t z (completed_row r)])] |}.
Proof.
  intros Hcol Hid Hrow. unfold serve, app, caught, patch_complete.
  cbn [run bind bind_try try_catch pool_query ok throw].
  change (exec {| Server.text := COMPLETE; values := [VStr id] |} (Some t))
    with (let '(a, t') := complete (Some id) t in (a, Some t')).
  unfold complete, int_param. rewrite Hcol, Hid. cbn [mbind option_bind].
  rewrite Hrow. reflexivity.
Qed.

Lemma completed_field (t : Table) (d : option bool) (z : Z) (r : Row) :
  completed_column t = Present d ->
  get_prop (row_value t z (completed_row r)) "completed" = inr (VBool true).
Proof. intros Hcol. unfold row_value. rewrite Hcol. reflexivity. Qed.

(** C8, as amended. On a table that has the [completed] column, PATCH
    /todos/:id/complete for the id of an existing row answers with that row,
    [completed] being [true], and stores it; a second PATCH of the same id
    answers with the same row and leaves the state as the first left it. *)
Theorem patch_complete_idempotent
  (id : string) (t : Table) (d : option bool) (z : Z) (r : Row) :
  completed_column t = Present d ->
  int4_in id = inr z ->
  rows t !! z = Some r ->
  let once := serve (PatchComplete id) (Some t) in
  let twice := serve (PatchComplete id) (final once) in
  result once = inr (res_json (row_value t z (completed_row r))) /\
  get_prop (body (res_json (row_value t z (completed_row r)))) "completed"
  = inr (VBool true) /\
  final once = Some (with_rows t (<[z := completed_row r]> (rows t))) /\
  result twice = result once /\
  final twice = final once.
Proof.
  intros Hcol Hid Hrow. cbv zeta.
  rewrite (serve_complete id t d z r Hcol Hid Hrow). cbn [result final body res_json].
  set (t1 := with_rows t (<[z := completed_row r]> (rows t))).
  assert (Hrow1 : rows t1 !! z = Some (completed_row r))
    by apply lookup_insert_eq.
  rewrite (serve_complete id t1 d z (completed_row r) Hcol Hid Hrow1).
  cbn [result final].
  split; [reflexivity|]. split; [exact (completed_field t d z r Hcol)|].
  split; [reflexivity|]. split; [reflexivity|].
  unfold t1, with_rows. cbn [rows completed_column created_at_column next_id].
  now rewrite insert_insert_eq.
Qed.

Lemma row_value_inj (t : Table) (id id' : Z) (r r' : Row) :
  row_value t id r = row_value t id' r' -> id = id'.
Proof. unfold row_value. intros Heq. injection Heq. auto. Qed.

(** The rows a search finds. *)
Lemma found_rows (t : Table) (toks : list Tok) (id : Z) (r : Row) :
  rows t !! id = Some r ->
  In (row_value t id r)
     (row_values t (List.filter (fun kr => matches toks (lower_string (Pg.text (snd kr))))
                                (scan t))) <->
  matches toks (lower_string (Pg.text r)) = true.
Proof.
  intros Hrow. unfold row_values. rewrite in_map_iff. split.
  - intros ((id' & r') & Heq & Hin). cbn [fst snd] in Heq.
    apply filter_In in Hin as [Hin Hmatch]. cbn [snd] in Hmatch.
    apply scan_In in Hin.
    apply row_value_inj in Heq as Hid. subst id'.
    assert (r' = r) by congruence. now subst r'.
  - intros Hmatch. exists (id, r). split; [reflexivity|].
    apply filter_In. split; [now apply scan_In | exact Hmatch].
Qed.

Lemma serve_search (q : Value) (s : string) (t : Table) (toks : list Tok) :
  ToString q = inr s ->
  has_nul s = false ->
  tokens (lower_string ("%" +:+ s +:+ "%")) = Some toks ->
  serve (GetSearch q) (Some t) =
  let found :=
    row_values t
      (List.filter (fun kr => matches toks (lower_string (Pg.text (snd kr))))
                   (scan t)) in
  {| result := inr (res_json (VArr found));
     final := Some t;
     trace := [(SEARCH_QUERY ("%" +:+ s +:+ "%"), Result found)] |}.
Proof.
  intros Hq Hnul Htok. unfold serve, app, caught, get_search, like_pattern.
  rewrite Hq.
  cbn [run bind bind_try try_catch pool_query ok throw attempt].
  change (exec {| Server.text := SEARCH; values := [VStr ("%" +:+ s +:+ "%")] |} (Some t))
    with (let '(a, t') := search (Some ("%" +:+ s +:+ "%")) t in (a, Some t')).
  unfold search, text_param.
  rewrite !has_nul_app, Hnul. cbn [has_nul orb]. change (code "%" =? 0) with false.
  cbn [orb]. rewrite Htok. reflexivity.
Qed.

Lemma serve_search_nul (q : Value) (s : string) (t : Table) :
  ToString q = inr s ->
  has_nul s = true ->
  serve (GetSearch q) (Some t) =
  {| result := inr (res_status_json 500 (error_body INVALID_BYTE));
     final := Some t;
     trace := [(SEARCH_QUERY ("%" +:+ s +:+ "%"), Threw INVALID_BYTE)] |}.
Proof.
  intros Hq Hnul. unfold serve, app, caught, get_search, like_pattern.
  rewrite Hq.
  cbn [run bind bind_try try_catch pool_query ok throw attempt].
  change (exec {| Server.text := SEARCH; values := [VStr ("%" +:+ s +:+ "%")] |} (Some t))
    with (let '(a, t') := search (Some ("%" +:+ s +:+ "%")) t in (a, Some t')).
  unfold search, text_param.
  rewrite !has_nul_app, Hnul. cbn [has_nul orb]. rewrite orb_true_r.
  reflexivity.
Qed.

(** C6, as amended. GET /todos/search sends the pattern [%q%], which is
    [%undefined%] when [q] is absent and [%%] when [q] is the empty string,
    and never changes the store. On an existing table and for a [q] without
    a NUL character it answers 200 with an array of rows. When [q] has no
    [%], [_] or backslash in it, the rows returned are exactly those whose
    [text] contains it, both being put in lower case first: "Buy Milk" is
    returned for [q=milk]. The answer is 500 when there is no table, when
    [q] has a NUL character in it, and when [q] cannot be converted to a
    string; in this last case no statement is sent. *)
Theorem search_is_ilike_of_pattern (q : Value) (db : DB) :
  let o := serve (GetSearch q) db in
  (q = VUndefined -> map fst (trace o) = [SEARCH_QUERY "%undefined%"]) /\
  (q = VStr "" -> map fst (trace o) = [SEARCH_QUERY "%%"]) /\
  final o = db /\
  match ToString q with
  | inl message =>
      trace o = [] /\
      result o = inr (res_status_json 500 (VObj [("error", VStr message)]))
  | inr s =>
      map fst (trace o) = [SEARCH_QUERY ("%" +:+ s +:+ "%")] /\
      match db with
      | None =>
          result o = inr (res_status_json 500 (VObj [("error", VStr MISSING_RELATION)]))
      | Some t =>
          if has_nul s
          then result o = inr (res_status_json 500 (VObj [("error", VStr INVALID_BYTE)]))
          else
            result o = inr (res_json (VArr (returned_rows (result o)))) /\
            (plain s = true ->
             forall id r,
               rows t !! id = Some r ->
               (In (row_value t id r) (returned_rows (result o)) <->
                contains (lower_string (Pg.text r)) (lower_string s))) /\
            (s = "milk" ->
             forall id r,
               rows t !! id = Some r ->
               Pg.text r = "Buy Milk" ->
               In (row_value t id r) (returned_rows (result o)))
      end
  end.
Proof.
  cbv zeta.
  assert (Hmain :
            final (serve (GetSearch q) db) = db /\
            match ToString q with
            | inl message =>
                trace (serve (GetSearch q) db) = [] /\
                result (serve (GetSearch q) db)
                = inr (res_status_json 500 (VObj [("error", VStr message)]))
            | inr s =>
                map fst (trace (serve (GetSearch q) db))
                = [SEARCH_QUERY ("%" +:+ s +:+ "%")] /\
                match db with
                | None =>
                    result (serve (GetSearch q) db)
                    = inr (res_status_json 500 (VObj [("error", VStr MISSING_RELATION)]))
                | Some t =>
                    if has_nul s
                    then result (serve (GetSearch q) db)
                         = inr (res_status_json 500 (VObj [("error", VStr INVALID_BYTE)]))
                    else
                      result (serve (GetSearch q) db)
                      = inr (res_json (VArr (returned_rows
                                               (result (serve (GetSearch q) db))))) /\
                      (plain s = true ->
                       forall id r,
                         rows t !! id = Some r ->
                         (In (row_value t id r)
                             (returned_rows (result (serve (GetSearch q) db))) <->
                          contains (lower_string (Pg.text r)) (lower_string s))) /\
                      (s = "milk" ->
                       forall id r,
                         rows t !! id = Some r ->
                         Pg.text r = "Buy Milk" ->
                         In (row_value t id r)
                            (returned_rows (result (serve (GetSearch q) db))))
                end
            end).
  { destruct (ToString q) as [message | s] eqn:Hq.
    - unfold serve, app, caught, get_search, like_pattern. rewrite Hq.
      repeat split.
    - destruct db as [t|].
      + destruct (has_nul s) eqn:Hnul.
        * rewrite (serve_search_nul q s t Hq Hnul). repeat split.
        * destruct (tokens_like_pattern s) as [toks Htoks].
          rewrite (serve_search q s t toks Hq Hnul Htoks).
          cbv zeta. cbn [result final trace map fst returned_rows body res_json].
          split; [reflexivity|]. split; [reflexivity|]. split; [reflexivity|].
          assert (Hplain : plain s = true ->
                           forall id r,
                             rows t !! id = Some r ->
                             In (row_value t id r)
                                (row_values t
                                   (List.filter
                                      (fun kr => matches toks (lower_string (Pg.text (snd kr))))
                                      (scan t))) <->
                             contains (lower_string (Pg.text r)) (lower_string s)).
          { intros Hp id r Hrow. rewrite (found_rows t toks id r Hrow).
            rewrite (tokens_search_pattern s Hp) in Htoks. injection Htoks as <-.
            now rewrite matches_substring, includes_contains. }
          split; [exact Hplain|].
          intros -> id r Hrow Htext. apply (Hplain eq_refl id r Hrow).
          rewrite Htext. cbn [lower_string].
          rewrite !lower_ascii by reflexivity.
          apply includes_contains. reflexivity.
      + unfold serve, app, caught, get_search, like_pattern. rewrite Hq.
        repeat split. }
  destruct Hmain as [Hfinal Hmain].
  split; [|split; [|split; [exact Hfinal | exact Hmain]]].
  - intros ->. cbn [ToString] in Hmain. exact (proj1 Hmain).
  - intros ->. cbn [ToString] in Hmain. exact (proj1 Hmain).
Qed.

End OnStore.
(* ===================================================================== *)
(** ** Counting and paging on the store *)
(* ===================================================================== *)

Section Paging.
Import JS Eff Server Pg StringFacts NumberFacts LikeFacts.

Context `{Codec}.

Lemma prop_count (v : Value) :
  prop (index0 [VObj [("count", v)]]) "count" = ok v.
Proof. reflexivity. Qed.

Lemma serve_count (t : Table) :
  let n := Z.of_nat (size (rows t)) in
  serve GetCount (Some t) =
  {| result := inr (res_json (VObj [("count", VNum (double n))]));
     final := Some t;
     trace := [(COUNT_QUERY, Result [VObj [("count", VStr (pretty n))]])] |}.
Proof.
  cbv zeta. unfold serve, app, caught, get_count.
  cbn [run bind bind_try try_catch pool_query ok throw].
  change (exec {| Server.text := COUNT; values := [] |} (Some t))
    with (let '(a, t') := count t in (a, Some t')).
  unfold count. cbn [run bind bind_try try_catch pool_query ok throw].
  rewrite prop_count.
  cbn [run bind bind_try try_catch pool_query ok throw].
  rewrite <- (nat_N_Z (size (rows t))), parseInt_pretty. reflexivity.
Qed.

(** GET /todos/count on an existing table answers with the number of its
    rows: the store sends the count as decimal text and [parseInt] reads it
    back, as a double, which below 2^53 is the number itself. *)
Theorem get_count_is_number_of_rows (t : Table) :
  let n := Z.of_nat (size (rows t)) in
  let o := serve GetCount (Some t) in
  result o = inr (res_json (VObj [("count", VNum (double n))])) /\
  (n < 2 ^ 53 -> result o = inr (res_json (VObj [("count", VNum (Num n))]))) /\
  final o = Some t.
Proof.
  cbv zeta. rewrite serve_count. cbv zeta. cbn [result final].
  split; [reflexivity|]. split; [|reflexivity].
  intros Hn. rewrite double_small by lia. reflexivity.
Qed.

Lemma serve_get_todos (t : Table) :
  result (serve GetTodos (Some t)) = inr (res_json (VArr (row_values t (scan t)))).
Proof. reflexivity. Qed.

(** The arithmetic of lines 87 to 89 when it is exact. *)
Lemma page_arithmetic (p l : Z) :
  1 <= p -> 1 <= l -> p * l < 2 ^ 53 ->
  or_default (Num p) 1 = Num p /\
  or_default (Num l) 10 = Num l /\
  mul (sub (Num p) (Num 1)) (Num l) = Num ((p - 1) * l) /\
  Number_toString (Num l) = pretty l /\
  Number_toString (Num ((p - 1) * l)) = pretty ((p - 1) * l) /\
  0 <= (p - 1) * l < 2 ^ 53 /\
  l < 2 ^ 53.
Proof.
  intros Hp Hl Hpl.
  assert (Hoff : 0 <= (p - 1) * l < 2 ^ 53) by nia.
  assert (Hl53 : l < 2 ^ 53) by nia.
  assert (Hp53 : p < 2 ^ 53) by nia.
  cbn [or_default sub].
  replace (p =? 0) with false by lia. replace (l =? 0) with false by lia.
  rewrite (double_small (p - 1)) by lia. cbn [mul].
  rewrite (double_small ((p - 1) * l)) by lia.
  rewrite !Number_toString_small by lia.
  repeat split; lia.
Qed.

Lemma serve_paginated (page_param limit_param : Value) (p l : Z) (t : Table) :
  parseInt page_param = inr (Num p) ->
  parseInt limit_param = inr (Num l) ->
  1 <= p ->
  1 <= l ->
  p * l < 2 ^ 53 ->
  Z.of_nat (size (rows t)) < 2 ^ 53 ->
  let n := Z.of_nat (size (rows t)) in
  let window := row_values t (take (Z.to_nat l) (drop (Z.to_nat ((p - 1) * l)) (scan t))) in
  serve (GetPaginated page_param limit_param) (Some t) =
  {| result := inr (res_json (page_body window (Num p) (Num (- ((- n) / l))) (Num n)));
     final := Some t;
     trace := [(PAGE_QUERY (Num l) (Num ((p - 1) * l)), Result window);
               (COUNT_QUERY, Result [VObj [("count", VStr (pretty n))]])] |}.
Proof.
  intros Hp Hl Hp1 Hl1 Hpl Hn. cbv zeta. unfold serve, app, get_paginated.
  destruct (page_arithmetic p l Hp1 Hl1 Hpl)
    as (Hpage & Hlimit & Hoffset & Htl & Hto & Hoff & Hl53).
  rewrite Hp, Hl.
  cbn [run bind bind_try try_catch pool_query ok throw attempt caught].
  rewrite Hpage, Hlimit, Hoffset.
  cbn [run bind bind_try try_catch pool_query ok throw attempt caught].
  change (exec {| Server.text := SELECT_PAGE;
                  values := [VNum (Num l); VNum (Num ((p - 1) * l))] |} (Some t))
    with (let '(a, t') := select_page (Some (Number_toString (Num l)))
                                      (Some (Number_toString (Num ((p - 1) * l)))) t
          in (a, Some t')).
  rewrite Htl, Hto. unfold select_page, int_param.
  rewrite !int8_in_decimal by lia.
  cbn [below_zero default].
  replace ((p - 1) * l <? 0) with false by lia. replace (l <? 0) with false by lia.
  cbn [run bind bind_try try_catch pool_query ok throw attempt caught].
  change (exec {| Server.text := COUNT; values := [] |} (Some t))
    with (let '(a, t') := count t in (a, Some t')).
  unfold count. cbn [run bind bind_try try_catch pool_query ok throw attempt caught].
  rewrite prop_count.
  cbn [run bind bind_try try_catch pool_query ok throw attempt caught].
  rewrite parseInt_decimal by lia.
  cbn [run bind bind_try try_catch pool_query ok throw attempt caught ceil_div].
  replace (l =? 0) with false by lia.
  rewrite ceil_quotient_exact by lia.
  reflexivity.
Qed.

Lemma windows_cover {A} (xs : list A) (L K : nat) :
  (0 < L)%nat ->
  (length xs <= K * L)%nat ->
  concat (map (fun i => take L (drop (i * L) xs)) (seq 0 K)) = xs.
Proof.
  intros HL. revert xs. induction K as [|K IH]; intros xs Hlen.
  - destruct xs; [reflexivity | simpl in Hlen; lia].
  - cbn [seq map concat]. rewrite <- seq_shift, map_map.
    change (0 * L)%nat with 0%nat. rewrite drop_0.
    transitivity (take L xs ++ drop L xs)%list; [|apply take_drop].
    f_equal.
    transitivity (concat (map (fun i => take L (drop (i * L) (drop L xs))) (seq 0 K)));
      [|apply IH; rewrite length_drop; lia].
    f_equal. apply map_ext. intros i.
    rewrite drop_drop. do 2 f_equal.
Qed.

Lemma row_values_window (t : Table) (k j : nat) (xs : list (Z * Row)) :
  row_values t (take k (drop j xs)) = take k (drop j (row_values t xs)).
Proof. unfold row_values. now rewrite <- firstn_map, <- skipn_map. Qed.

(** GET /todos/paginated on an existing table of fewer than 2^53 rows, for
    a page and a limit of at least 1 whose product is below 2^53: the
    response holds the window of that page out of the rows as GET /todos
    returns them in the same state, the number of rows of the table as
    [totalCount], and as [totalPages] the least number of pages of [limit]
    rows that hold them all. GET /todos returns every row of the table
    once. *)
Theorem paginated_window_and_counts
  (page_param limit_param : Value) (p l : Z) (t : Table) :
  parseInt page_param = inr (Num p) ->
  parseInt limit_param = inr (Num l) ->
  1 <= p ->
  1 <= l ->
  p * l < 2 ^ 53 ->
  Z.of_nat (size (rows t)) < 2 ^ 53 ->
  let n := Z.of_nat (size (rows t)) in
  let o := serve (GetPaginated page_param limit_param) (Some t) in
  let all := returned_rows (result (serve GetTodos (Some t))) in
  (exists totalPages,
      result o = inr (res_json
                        (page_body (take (Z.to_nat l) (drop (Z.to_nat ((p - 1) * l)) all))
                                   (Num p) (Num totalPages) (Num n))) /\
      (totalPages - 1) * l < n <= totalPages * l) /\
  final o = Some t /\
  length all = size (rows t) /\
  (forall j r, rows t !! j = Some r -> In (row_value t j r) all).
Proof.
  intros Hp Hl Hp1 Hl1 Hpl Hn. cbv zeta.
  rewrite (serve_paginated _ _ p l t Hp Hl Hp1 Hl1 Hpl Hn). cbv zeta.
  rewrite serve_get_todos. cbn [result final returned_rows body res_json].
  split; [|split; [reflexivity|split]].
  - eexists. rewrite row_values_window. split; [reflexivity|].
    apply ceil_bounds. lia.
  - unfold row_values. now rewrite length_map, scan_length.
  - intros j r Hrow. unfold row_values. apply in_map_iff. exists (j, r).
    split; [reflexivity | now apply scan_In].
Qed.

(** The pages of GET /todos/paginated, from the first to [totalPages], put
    end to end, are the rows GET /todos returns in the same state, as long
    as the number of rows plus [limit] is below 2^53. *)
Theorem pages_cover_all_rows (l : Z) (t : Table) :
  let n := Z.of_nat (size (rows t)) in
  1 <= l ->
  n + l < 2 ^ 53 ->
  exists totalPages,
    ceil_div (Num n) (Num l) = Num totalPages /\
    (totalPages - 1) * l < n <= totalPages * l /\
    concat (map (fun i => page_todos
                            (result (serve (GetPaginated (VStr (pretty (Z.of_nat i + 1)))
                                                         (VStr (pretty l)))
                                           (Some t))))
                (seq 0 (Z.to_nat totalPages)))
    = returned_rows (result (serve GetTodos (Some t))).
Proof.
  cbv zeta. intros Hl Hn.
  set (n := Z.of_nat (size (rows t))) in *.
  assert (Hn0 : 0 <= n) by (unfold n; lia).
  exists (- ((- n) / l)).
  pose proof (ceil_bounds n l ltac:(lia)) as [Hlow Hhigh].
  set (k := - ((- n) / l)) in *.
  assert (Hk : 0 <= k) by nia.
  split; [|split; [split; assumption|]].
  { cbn [ceil_div]. replace (l =? 0) with false by lia.
    now rewrite ceil_quotient_exact by lia. }
  rewrite serve_get_todos. cbn [returned_rows body res_json].
  transitivity
    (concat (map (fun i => row_values t
                             (take (Z.to_nat l)
                                   (drop (i * Z.to_nat l) (scan t))))
                 (seq 0 (Z.to_nat k)))).
  - f_equal. apply map_ext_in. intros i Hi%in_seq.
    assert (Hi' : Z.of_nat i <= k - 1) by lia.
    assert (Hmul : Z.of_nat i * l <= (k - 1) * l)
      by (apply Z.mul_le_mono_nonneg_r; lia).
    assert (Hpl : (Z.of_nat i + 1) * l < 2 ^ 53) by lia.
    assert (Hp53 : Z.of_nat i + 1 < 2 ^ 53) by nia.
    assert (Hpage : parseInt (VStr (pretty (Z.of_nat i + 1))) = inr (Num (Z.of_nat i + 1)))
      by (apply parseInt_decimal; lia).
    assert (Hlimit : parseInt (VStr (pretty l)) = inr (Num l))
      by (apply parseInt_decimal; lia).
    assert (Hp1 : 1 <= Z.of_nat i + 1) by lia.
    assert (Hn53 : Z.of_nat (size (rows t)) < 2 ^ 53) by (fold n; lia).
    rewrite (serve_paginated _ _ (Z.of_nat i + 1) l t Hpage Hlimit Hp1 Hl Hpl Hn53).
    cbv zeta. cbn [result]. unfold page_todos.
    cbn [body res_json page_body get_prop].
    change (assoc "todos" ?f)
      with (VArr (row_values t
                    (take (Z.to_nat l)
                          (drop (Z.to_nat ((Z.of_nat i + 1 - 1) * l)) (scan t))))).
    do 3 f_equal. nia.
  - unfold row_values.
    transitivity
      (map (fun kr => row_value t (fst kr) (snd kr))
           (concat (map (fun i => take (Z.to_nat l)
                                       (drop (i * Z.to_nat l) (scan t)))
                        (seq 0 (Z.to_nat k)))));
      [now rewrite concat_map, map_map|].
    f_equal. apply windows_cover; [lia|].
    rewrite <- Z2Nat.inj_mul by lia.
    rewrite scan_length. fold n. lia.
Qed.

(** A page past the last one is no error. For a page and a limit of at
    least 1 whose product is below 2^53, on an existing table that has no
    more than [(page - 1) * limit] rows, GET /todos/paginated answers 200
    with no todos, with the number of rows as [totalCount], and with a
    [totalPages] that is the least number of pages holding them all and is
    below [page]. *)
Theorem page_past_the_end_is_empty
  (page_param limit_param : Value) (p l : Z) (t : Table) :
  parseInt page_param = inr (Num p) ->
  parseInt limit_param = inr (Num l) ->
  1 <= p ->
  1 <= l ->
  p * l < 2 ^ 53 ->
  Z.of_nat (size (rows t)) <= (p - 1) * l ->
  let n := Z.of_nat (size (rows t)) in
  exists totalPages,
    result (serve (GetPaginated page_param limit_param) (Some t))
    = inr (res_json (page_body [] (Num p) (Num totalPages) (Num n))) /\
    (totalPages - 1) * l < n <= totalPages * l /\
    totalPages < p.
Proof.
  intros Hp Hl Hp1 Hl1 Hpl Hpast. cbv zeta.
  assert (Hn : Z.of_nat (size (rows t)) < 2 ^ 53) by nia.
  rewrite (serve_paginated _ _ p l t Hp Hl Hp1 Hl1 Hpl Hn). cbv zeta. cbn [result].
  rewrite drop_ge by (rewrite scan_length; lia).
  rewrite take_nil. eexists. split; [reflexivity|].
  pose proof (ceil_bounds (Z.of_nat (size (rows t))) l ltac:(lia)) as Hb.
  split; [exact Hb | nia].
Qed.




End Paging.
(* ===================================================================== *)
(** ** Ids and the sequence *)
(* ===================================================================== *)

Section Invariant.
Import JS Eff Server Pg StringFacts LikeFacts.

Context `{Codec}.

Lemma run_invariant {Q A R S} (env : Q -> S -> A * S) (I : S -> Prop) :
  (forall q s, I s -> I (snd (env q s))) ->
  forall (p : Prog Q A R) (s : S), I s -> I (final (run env p s)).
Proof.
  intros Henv p. induction p as [r | q k IH]; intros s Hs; [exact Hs|].
  cbn [run]. specialize (Henv q s Hs). destruct (env q s) as [a s'].
  cbn [final]. apply IH. exact Henv.
Qed.

Lemma wf_insert_row (t : Table) (id : Z) (r : Row) :
  wf t -> rows t !! id = Some r -> forall r', wf (with_rows t (<[id := r']> (rows t))).
Proof.
  intros Hwf Hrow r' j x. cbn [rows with_rows next_id].
  destruct (decide (id = j)) as [<-|Hne].
  - intros _. exact (Hwf id r Hrow).
  - rewrite lookup_insert_ne by exact Hne. apply Hwf.
Qed.

Lemma wf_next (t : Table) : wf t -> wf (with_next_id t (next_id t + 1)).
Proof. intros Hwf j x Hj. cbn [rows with_next_id next_id] in *. specialize (Hwf j x Hj). lia. Qed.

Lemma exec_table_wf (st : Stmt) (params : list (option string)) (t : Table) :
  wf t -> wf (snd (exec_table st params t)).
Proof.
  intros Hwf.
  destruct st; destruct params as [|p1 [|p2 [|p3 params]]]; try exact Hwf.
  - (* INSERT *)
    unfold exec_table, insert.
    destruct (text_param p1) as [m | p1']; [exact Hwf|].
    destruct (coerce_text p1') as [m | [s|]]; try exact Hwf;
      destruct (2 ^ 31 - 1 <? next_id t); try exact Hwf; try (now apply wf_next).
    destruct (rows t !! next_id t) eqn:Hrow; [now apply wf_next|].
    intros j x. cbn [snd rows with_rows with_next_id next_id].
    destruct (decide (next_id t = j)) as [<-|Hne]; [lia|].
    rewrite lookup_insert_ne by exact Hne. intros Hj. specialize (Hwf j x Hj). lia.
  - (* UPDATE *)
    unfold exec_table, update_text.
    destruct (text_param p1) as [m | p1']; [exact Hwf|].
    destruct (int_param int4_in p2) as [m | oid]; [exact Hwf|].
    destruct (coerce_text p1') as [m | v]; [exact Hwf|].
    destruct oid as [id|]; cbn [mbind option_bind]; [|exact Hwf].
    destruct (rows t !! id) as [r|] eqn:Hrow; cbn [fmap option_fmap option_map];
      [|exact Hwf].
    destruct v; [|exact Hwf]. cbn [snd]. exact (wf_insert_row t id r Hwf Hrow _).
  - (* DELETE *)
    unfold exec_table, delete_row.
    destruct (int_param int4_in p1) as [m | [id|]]; try exact Hwf.
    intros j x. cbn [snd rows with_rows next_id].
    intros Hj%lookup_delete_Some. now apply (Hwf j x).
  - (* LIMIT / OFFSET *)
    unfold exec_table, select_page.
    destruct (int_param int8_in p1) as [m | limit]; [exact Hwf|].
    destruct (int_param int8_in p2) as [m | offset]; [exact Hwf|].
    destruct (below_zero offset); [exact Hwf|]. destruct (below_zero limit); exact Hwf.
  - (* ILIKE *)
    unfold exec_table, search.
    destruct (text_param p1) as [m | [pattern|]]; try exact Hwf.
    destruct (tokens (lower_string pattern)); exact Hwf.
  - (* BETWEEN *)
    unfold exec_table, date_range. destruct (created_at_column t); [exact Hwf|].
    destruct (timestamp_param p1); [exact Hwf|].
    destruct (timestamp_param p2); exact Hwf.
  - (* completed = TRUE *)
    unfold exec_table, complete. destruct (completed_column t); [exact Hwf|].
    destruct (int_param int4_in p1) as [m | oid]; [exact Hwf|].
    destruct oid as [id|]; cbn [mbind option_bind]; [|exact Hwf].
    destruct (rows t !! id) as [r|] eqn:Hrow; cbn [fmap option_fmap option_map];
      [|exact Hwf].
    cbn [snd]. exact (wf_insert_row t id r Hwf Hrow _).
Qed.

Lemma exec_wf (q : Query) (db : DB) : wf_db db -> wf_db (snd (exec q db)).
Proof.
  intros Hwf. unfold exec. destruct (parse (Server.text q)) as [st|]; [|exact Hwf].
  destruct db as [t|].
  - pose proof (exec_table_wf st (map prepareValue (values q)) t Hwf) as Hstep.
    destruct (exec_table st (map prepareValue (values q)) t). exact Hstep.
  - destruct st; try exact I. intros j x Hj. cbn in Hj.
    rewrite lookup_empty in Hj. discriminate Hj.
Qed.

(** Whatever the request, the ids in the table stay below the next value
    of the sequence: an INSERT never meets a row that has its id. *)
Theorem every_request_keeps_ids_below_sequence (r : Request) (db : DB) :
  wf_db db -> wf_db (final (serve r db)).
Proof. apply run_invariant. apply exec_wf. Qed.

Lemma varchar255_short (s : string) :
  (String.length s <= 255)%nat -> coerce_text (Some s) = inr (Some s).
Proof.
  intros Hlen. unfold coerce_text, varchar255.
  now replace (String.length s <=? 255)%nat with true by (symmetry; now apply Nat.leb_le).
Qed.

Lemma text_param_clean (s : string) :
  has_nul s = false -> text_param (Some s) = inr (Some s).
Proof. intros Hnul. unfold text_param. now rewrite Hnul. Qed.

Lemma insert_fresh (s : string) (t : Table) :
  wf t ->
  next_id t <= 2 ^ 31 - 1 ->
  (String.length s <= 255)%nat ->
  has_nul s = false ->
  exec (INSERT_QUERY (VStr s)) (Some t) =
  (Result [row_value t (next_id t) (new_row t s)],
   Some (with_rows (with_next_id t (next_id t + 1))
                   (<[next_id t := new_row t s]> (rows t)))).
Proof.
  intros Hwf Hseq Hlen Hnul.
  change (exec (INSERT_QUERY (VStr s)) (Some t))
    with (let '(a, t') := insert (Some s) t in (a, Some t')).
  unfold insert. rewrite (text_param_clean s Hnul), (varchar255_short s Hlen).
  replace (2 ^ 31 - 1 <? next_id t) with false by lia.
  destruct (rows t !! next_id t) as [r|] eqn:Hrow; [|reflexivity].
  specialize (Hwf _ _ Hrow). lia.
Qed.

Lemma post_on_table (s : string) (t : Table) :
  wf t ->
  next_id t <= 2 ^ 31 - 1 ->
  (String.length s <= 255)%nat ->
  has_nul s = false ->
  let o := serve (PostTodos (VStr s)) (Some t) in
  result o = inr (res_json (row_value t (next_id t) (new_row t s))) /\
  final o = Some (with_rows (with_next_id t (next_id t + 1))
                            (<[next_id t := new_row t s]> (rows t))).
Proof.
  intros Hwf Hseq Hlen Hnul. cbv zeta. unfold serve, app, caught, post_todos.
  cbn [run bind bind_try try_catch pool_query ok throw].
  change {| Server.text := INSERT; values := [VStr s] |} with (INSERT_QUERY (VStr s)).
  rewrite (insert_fresh s t Hwf Hseq Hlen Hnul). split; reflexivity.
Qed.

Lemma wf_created_table : wf created_table.
Proof. intros j x Hj. cbn in Hj. rewrite lookup_empty in Hj. discriminate Hj. Qed.

Lemma post_without_table (s : string) :
  (String.length s <= 255)%nat ->
  has_nul s = false ->
  let o := serve (PostTodos (VStr s)) None in
  result o = inr (res_json (row_value created_table 1 (new_row created_table s))) /\
  final o = Some (with_rows (with_next_id created_table 2)
                            (<[1 := new_row created_table s]> ∅)).
Proof.
  intros Hlen Hnul. cbv zeta. unfold serve, app, caught, post_todos.
  cbn [run bind bind_try try_catch pool_query ok throw].
  change (exec {| Server.text := INSERT; values := [VStr s] |} None)
    with (Threw MISSING_RELATION, @None Table).
  cbn [run bind bind_try try_catch pool_query ok throw].
  change (includes MISSING_RELATION MISSING_RELATION) with true. cbn match.
  cbn [run bind bind_try try_catch pool_query ok throw].
  change (exec {| Server.text := CREATE_TABLE; values := [] |} None)
    with (Result [], Some created_table).
  cbn [run bind bind_try try_catch pool_query ok throw].
  change {| Server.text := INSERT; values := [VStr s] |} with (INSERT_QUERY (VStr s)).
  rewrite (insert_fresh s created_table wf_created_table ltac:(cbn; lia) Hlen Hnul).
  split; reflexivity.
Qed.

(** On a store where every id was given out by the sequence and the
    sequence has a value left, for a text of at most 255 characters without
    a NUL character: POST /todos answers 200 with a row whose [text] is
    that text, creating the table first when there is none, and a GET
    /todos that follows answers 200 with an array that holds this row. *)
Theorem post_then_get_lists_the_row (s : string) (db : DB) :
  wf_db db ->
  sequence_available db ->
  (String.length s <= 255)%nat ->
  has_nul s = false ->
  let posted := serve (PostTodos (VStr s)) db in
  let listed := serve GetTodos (final posted) in
  exists row listed_rows,
    result posted = inr (res_json row) /\
    get_prop row "text" = inr (VStr s) /\
    result listed = inr (res_json (VArr listed_rows)) /\
    In row listed_rows.
Proof.
  intros Hwf Hseq Hlen Hnul. cbv zeta.
  assert (Hpost : exists t id t',
             result (serve (PostTodos (VStr s)) db)
             = inr (res_json (row_value t id (new_row t s))) /\
             final (serve (PostTodos (VStr s)) db) = Some t' /\
             rows t' !! id = Some (new_row t s) /\
             completed_column t' = completed_column t /\
             created_at_column t' = created_at_column t).
  { destruct db as [t|].
    - destruct (post_on_table s t Hwf Hseq Hlen Hnul) as [Hr Hf].
      eexists t, (next_id t), _. split; [exact Hr|]. split; [exact Hf|].
      split; [apply lookup_insert_eq|]. split; reflexivity.
    - destruct (post_without_table s Hlen Hnul) as [Hr Hf].
      eexists created_table, 1, _. split; [exact Hr|]. split; [exact Hf|].
      split; [apply lookup_insert_eq|]. split; reflexivity. }
  destruct Hpost as (t & id & t' & Hr & Hf & Hrow & Hc1 & Hc2).
  rewrite Hr, Hf, serve_get_todos.
  eexists _, _. split; [reflexivity|]. split.
  - unfold row_value. reflexivity.
  - split; [reflexivity|]. unfold row_values. apply in_map_iff.
    exists (id, new_row t s). split.
    + unfold row_value. cbn [fst snd]. now rewrite Hc1, Hc2.
    + now apply scan_In.
Qed.

End Invariant.

(* ===================================================================== *)
(** ** What the handlers send *)
(* ===================================================================== *)

Section Sent.
Import JS Eff Server StringFacts.

Lemma sends_only_trace {Q A R S} (P : Q -> Prop) (p : Prog Q A R) :
  sends_only P p ->
  forall (env : Q -> S -> A * S) (s : S),
    Forall (fun qa => P (fst qa)) (trace (run env p s)).
Proof.
  induction 1 as [r | q k Hq _ IH]; intros env s; cbn [run].
  - constructor.
  - destruct (env q s) as [a s']. cbn [trace]. constructor; [exact Hq | apply IH].
Qed.

Lemma sends_only_final {Q A R S} (P : Q -> Prop) (I : S -> Prop) (p : Prog Q A R) :
  sends_only P p ->
  forall (env : Q -> S -> A * S),
    (forall q s, P q -> I s -> I (snd (env q s))) ->
    forall s, I s -> I (final (run env p s)).
Proof.
  induction 1 as [r | q k Hq _ IH]; intros env Henv s Hs; cbn [run].
  - exact Hs.
  - specialize (Henv q s Hq Hs) as Hstep. destruct (env q s) as [a s'].
    cbn [final]. now apply IH.
Qed.

Ltac walk_handler :=
  repeat
    (cbn [bind bind_try try_catch pool_query ok throw send_error attempt caught];
     first
       [ apply sends_only_ret
       | apply sends_only_await; [cbn; tauto | intros [?message | ?rows]]
       | match goal with
         | |- context [includes ?m ?p] => destruct (includes m p)
         | |- context [get_prop ?v ?k] => destruct (get_prop v k)
         | |- context [parseInt ?v] => destruct (parseInt v)
         | |- context [like_pattern ?v] => destruct (like_pattern v)
         end ]).

(** Every handler sends statements of the file only. *)
Lemma app_sends_statements (r : Request) :
  sends_only (fun q => In (text q) STATEMENTS) (app r).
Proof.
  destruct r; unfold app, caught, get_root, get_todos, post_todos, put_todo,
    delete_todo, get_paginated, get_search, get_date_range, get_count,
    patch_complete, prop;
    walk_handler.
Qed.

Lemma get_sends_selects (r : Request) :
  is_get r = true -> sends_only (fun q => is_select (text q) = true) (app r).
Proof.
  destruct r; try discriminate; intros _;
    unfold app, caught, get_root, get_todos, get_paginated, get_search,
      get_date_range, get_count, prop;
    walk_handler.
Qed.

Context {S : Type} (env : Query -> S -> Answer * S).

(** Whatever a request carries, the text of every statement sent for it is
    one of the ten texts written in the file: what the request carries
    travels in the parameters only. *)
Theorem statement_texts_are_fixed (r : Request) (s : S) :
  Forall (fun qa => In (text (fst qa)) STATEMENTS) (trace (run env (app r) s)).
Proof.
  apply (sends_only_trace (fun q => In (text q) STATEMENTS)), app_sends_statements.
Qed.

(** The routes registered with [app.get] send SELECT statements only,
    whatever the store answers; [/] sends nothing. *)
Theorem get_routes_send_selects_only (r : Request) (s : S) :
  is_get r = true ->
  Forall (fun qa => is_select (text (fst qa)) = true) (trace (run env (app r) s)) /\
  (r = GetRoot -> trace (run env (app r) s) = []).
Proof.
  intros Hget. split.
  - now apply (sends_only_trace (fun q => is_select (text q) = true)),
      get_sends_selects.
  - now intros ->.
Qed.

Ltac step_answer :=
  first
    [ match goal with
      | |- context [env ?q ?s] =>
          let a := fresh "a" in
          let s' := fresh "s" in
          destruct (env q s) as [a s'] eqn:?; destruct a as [?message|?rows]
      end
    | match goal with
      | |- context [includes ?m ?p] => destruct (includes m p) eqn:?
      | |- context [get_prop ?v ?k] => destruct (get_prop v k) eqn:?
      | |- context [parseInt ?v] => destruct (parseInt v) eqn:?
      | |- context [like_pattern ?v] => destruct (like_pattern v) eqn:?
      end ];
  cbn [run bind bind_try try_catch pool_query ok throw send_error attempt caught
       result final trace].

Ltac all_succeeded :=
  cbn [removelast]; repeat constructor; eexists; reflexivity.

(** A handler stops at the first query that fails: every answer before the
    last one of a request is a success. The one exception is the first
    INSERT of POST /todos failing with the missing-relation message, after
    which the same holds of the statements that follow. No request costs
    more than three statements, and none but POST /todos more than two. *)
Theorem a_failed_query_is_the_last (r : Request) (s : S) :
  let t := trace (run env (app r) s) in
  (Forall succeeded (removelast t) \/
   exists text message rest,
     r = PostTodos text /\
     t = (INSERT_QUERY text, Threw message) :: rest /\
     contains message MISSING_RELATION /\
     Forall succeeded (removelast rest)) /\
  (length t <= 3)%nat /\
  ((forall text, r <> PostTodos text) -> (length t <= 2)%nat).
Proof.
  cbv zeta.
  destruct r; unfold app, caught, get_root, get_todos, post_todos, put_todo,
    delete_todo, get_paginated, get_search, get_date_range, get_count,
    patch_complete, prop;
  cbn [run bind bind_try try_catch pool_query ok throw send_error attempt caught
       result final trace];
  repeat step_answer;
  (split; [| split; [cbn; lia | intros Hnot; try (cbn; lia)]]);
  try (left; all_succeeded);
  try (right; eexists _, _, _; split; [reflexivity|]; split; [reflexivity|];
       split; [now apply includes_contains | all_succeeded]);
  match goal with
  | Hnot : forall _, PostTodos ?t <> _ |- _ => destruct (Hnot t eq_refl)
  end.
Qed.

End Sent.

(* ===================================================================== *)
(** ** Reading, updating and deleting on the store *)
(* ===================================================================== *)

Section Routes.
Import JS Eff Server Pg StringFacts NumberFacts LikeFacts.

Context `{Codec}.

Lemma parse_sql_of (sql : string) (st : Stmt) :
  parse sql = Some st -> sql = sql_of st.
Proof.
  unfold parse.
  repeat match goal with
         | |- context [String.eqb sql ?x] =>
             destruct (String.eqb_spec sql x) as [-> | _];
             [intros [= <-]; reflexivity|]
         end.
  discriminate.
Qed.

(** A SELECT statement leaves the state of the store as it is. *)
Lemma exec_select_keeps_state (q : Query) (db : DB) :
  is_select (Server.text q) = true -> snd (exec q db) = db.
Proof.
  intros Hsel. unfold exec.
  destruct (parse (Server.text q)) as [st|] eqn:Hparse; [|reflexivity].
  apply parse_sql_of in Hparse. rewrite Hparse in Hsel.
  destruct db as [t|]; [|destruct st; try reflexivity; discriminate Hsel].
  destruct (exec_table st (map prepareValue (values q)) t) as [a t'] eqn:Hexec.
  cbn [snd]. f_equal.
  assert (Hsnd : snd (exec_table st (map prepareValue (values q)) t) = t);
    [|now rewrite Hexec in Hsnd].
  clear Hexec.
  destruct st; try discriminate Hsel;
    destruct (map prepareValue (values q)) as [|p1 [|p2 [|p3 ps]]]; try reflexivity.
  - unfold exec_table, select_page.
    destruct (int_param int8_in p1); [reflexivity|].
    destruct (int_param int8_in p2); [reflexivity|].
    destruct (below_zero _); [reflexivity|]. destruct (below_zero _); reflexivity.
  - unfold exec_table, search. destruct (text_param p1) as [m | [pattern|]];
      try reflexivity.
    destruct (tokens _); reflexivity.
  - unfold exec_table, date_range. destruct (created_at_column t); [reflexivity|].
    destruct (timestamp_param p1); [reflexivity|].
    destruct (timestamp_param p2); reflexivity.
Qed.

(** No route registered with [app.get] changes the store: whatever its
    parameters and whatever state the store is in, the state after the
    request is the state before. *)
Theorem get_routes_change_nothing (r : Request) (db : DB) :
  is_get r = true -> final (serve r db) = db.
Proof.
  intros Hget. unfold serve.
  apply (sends_only_final (fun q => is_select (Server.text q) = true)
                          (fun s => s = db) (app r) (get_sends_selects r Hget)).
  - intros q s Hq ->. now apply exec_select_keeps_state.
  - reflexivity.
Qed.

Lemma serve_put (id : string) (s : string) (t : Table) (z : Z) :
  int4_in id = inr z ->
  (String.length s <= 255)%nat ->
  has_nul s = false ->
  serve (PutTodo id (VStr s)) (Some t) =
  match rows t !! z with
  | Some r =>
      {| result := inr (res_json (row_value t z (with_text r s)));
         final := Some (with_rows t (<[z := with_text r s]> (rows t)));
         trace := [(UPDATE_QUERY (VStr s) id, Result [row_value t z (with_text r s)])] |}
  | None =>
      {| result := inr (res_json VUndefined);
         final := Some t;
         trace := [(UPDATE_QUERY (VStr s) id, Result [])] |}
  end.
Proof.
  intros Hid Hlen Hnul. unfold serve, app, caught, put_todo.
  cbn [run bind bind_try try_catch pool_query ok throw].
  change (exec {| Server.text := UPDATE_TEXT; values := [VStr s; VStr id] |} (Some t))
    with (let '(a, t') := update_text (Some s) (Some id) t in (a, Some t')).
  unfold update_text, int_param.
  rewrite (text_param_clean s Hnul), Hid, (varchar255_short s Hlen).
  cbn [mbind option_bind]. destruct (rows t !! z) as [r|]; reflexivity.
Qed.

Lemma serve_put_null (id : string) (text : Value) (t : Table) (z : Z) :
  text = VUndefined \/ text = VNull ->
  int4_in id = inr z ->
  rows t !! z = None ->
  serve (PutTodo id text) (Some t) =
  {| result := inr (res_json VUndefined);
     final := Some t;
     trace := [(UPDATE_QUERY text id, Result [])] |}.
Proof.
  intros Htext Hid Hrow. unfold serve, app, caught, put_todo.
  cbn [run bind bind_try try_catch pool_query ok throw].
  change (exec {| Server.text := UPDATE_TEXT; values := [text; VStr id] |} (Some t))
    with (let '(a, t') := update_text (prepareValue text) (Some id) t in (a, Some t')).
  destruct Htext as [-> | ->]; unfold update_text, int_param; cbn [prepareValue text_param];
    rewrite Hid; cbn [coerce_text mbind option_bind]; rewrite Hrow; reflexivity.
Qed.

(** PUT /todos/:id with a text of at most 255 characters and no NUL
    character, for the id of an existing row: the answer is that row with
    the new text; the store holds it, with the other columns of the row,
    every other row, the columns of the table and the sequence as they
    were; and the same PUT once more gives the same answer and the same
    state. *)
Theorem put_todo_replaces_the_text
  (id : string) (s : string) (t : Table) (z : Z) (r : Row) :
  int4_in id = inr z ->
  rows t !! z = Some r ->
  (String.length s <= 255)%nat ->
  has_nul s = false ->
  let once := serve (PutTodo id (VStr s)) (Some t) in
  let twice := serve (PutTodo id (VStr s)) (final once) in
  result once = inr (res_json (row_value t z (with_text r s))) /\
  get_prop (body (res_json (row_value t z (with_text r s)))) "text" = inr (VStr s) /\
  (exists t',
      final once = Some t' /\
      rows t' !! z = Some {| Pg.text := s; completed := completed r;
                             created_at := created_at r |} /\
      (forall j, j <> z -> rows t' !! j = rows t !! j) /\
      completed_column t' = completed_column t /\
      created_at_column t' = created_at_column t /\
      next_id t' = next_id t) /\
  result twice = result once /\
  final twice = final once.
Proof.
  intros Hid Hrow Hlen Hnul. cbv zeta.
  rewrite (serve_put id s t z Hid Hlen Hnul), Hrow. cbn [result final body res_json].
  set (t1 := with_rows t (<[z := with_text r s]> (rows t))).
  assert (Hrow1 : rows t1 !! z = Some (with_text r s)) by apply lookup_insert_eq.
  rewrite (serve_put id s t1 z Hid Hlen Hnul), Hrow1. cbn [result final].
  split; [reflexivity|]. split; [reflexivity|]. split.
  - exists t1. split; [reflexivity|]. split; [exact Hrow1|]. split.
    + intros j Hj. unfold t1. cbn [rows with_rows]. now apply lookup_insert_ne.
    + repeat split.
  - split; [reflexivity|].
    unfold t1, with_rows. cbn [rows completed_column created_at_column next_id].
    now rewrite insert_insert_eq.
Qed.

Lemma serve_complete_absent (id : string) (t : Table) (d : option bool) (z : Z) :
  completed_column t = Present d ->
  int4_in id = inr z ->
  rows t !! z = None ->
  serve (PatchComplete id) (Some t) =
  {| result := inr (res_json VUndefined);
     final := Some t;
     trace := [(COMPLETE_QUERY id, Result [])] |}.
Proof.
  intros Hcol Hid Hrow. unfold serve, app, caught, patch_complete.
  cbn [run bind bind_try try_catch pool_query ok throw].
  change (exec {| Server.text := COMPLETE; values := [VStr id] |} (Some t))
    with (let '(a, t') := complete (Some id) t in (a, Some t')).
  unfold complete, int_param. rewrite Hcol, Hid. cbn [mbind option_bind].
  rewrite Hrow. reflexivity.
Qed.

(** For an id that the store reads as an integer and that no row has, an
    update that finds no row is no failure. PUT /todos/:id, with no text or
    with a text of at most 255 characters and no NUL character, and PATCH
    /todos/:id/complete, on a table that has the [completed] column, answer
    200 with an undefined body (no row was returned) and leave the store as
    it was. *)
Theorem update_of_an_absent_id_answers_200_with_no_body
  (id : string) (t : Table) (z : Z) :
  int4_in id = inr z ->
  rows t !! z = None ->
  (forall text,
      text = VUndefined \/ text = VNull \/
      (exists s, text = VStr s /\ (String.length s <= 255)%nat /\ has_nul s = false) ->
      let o := serve (PutTodo id text) (Some t) in
      result o = inr {| status := 200; body := VUndefined |} /\
      final o = Some t) /\
  (forall d, completed_column t = Present d ->
             let o := serve (PatchComplete id) (Some t) in
             result o = inr {| status := 200; body := VUndefined |} /\
             final o = Some t).
Proof.
  intros Hid Hrow. split.
  - intros text [-> | [-> | (s & -> & Hlen & Hnul)]]; cbv zeta.
    + rewrite (serve_put_null id VUndefined t z (or_introl eq_refl) Hid Hrow).
      split; reflexivity.
    + rewrite (serve_put_null id VNull t z (or_intror eq_refl) Hid Hrow).
      split; reflexivity.
    + rewrite (serve_put id s t z Hid Hlen Hnul), Hrow. split; reflexivity.
  - intros d Hcol. cbv zeta. rewrite (serve_complete_absent id t d z Hcol Hid Hrow).
    split; reflexivity.
Qed.

Lemma scan_empty (t : Table) : rows t = ∅ -> scan t = [].
Proof.
  intros Hrows. apply Permutation_nil. symmetry.
  rewrite (scan_rows t), Hrows. now rewrite map_to_list_empty.
Qed.

(** POST /todos without a text (the body has none, or null) on a store
    without the table: the handler creates the table, the INSERT that
    follows is refused, and the answer is 500; but the table stays. Before
    the request GET /todos answered 500, after it GET /todos answers 200
    with an empty array. *)
Theorem post_without_text_leaves_the_table_created (text : Value) :
  text = VUndefined \/ text = VNull ->
  let o := serve (PostTodos text) None in
  result o = inr (res_status_json 500 (error_body NOT_NULL_VIOLATION)) /\
  map fst (trace o) = [INSERT_QUERY text; CREATE_QUERY; INSERT_QUERY text] /\
  (exists t, final o = Some t /\ rows t = ∅ /\ two_columns (Some t)) /\
  result (serve GetTodos None) = inr (res_status_json 500 (error_body NO_TABLE_MESSAGE)) /\
  result (serve GetTodos (final o)) = inr (res_json (VArr [])).
Proof.
  intros [-> | ->]; cbv zeta.
  all: split; [reflexivity|]; split; [reflexivity|]; split;
    [eexists; split; [reflexivity|]; split; [reflexivity | split; reflexivity]|];
    split; [reflexivity|].
  all: match goal with
       | |- result (serve GetTodos (final ?o)) = _ =>
           change (final o) with (Some (with_next_id created_table 2))
       end;
    rewrite serve_get_todos, (scan_empty (with_next_id created_table 2) eq_refl);
    reflexivity.
Qed.

Ltac same_columns :=
  split; cbn [snd fail with_rows with_next_id completed_column created_at_column];
  first [reflexivity | congruence].

Lemma exec_table_keeps_columns (st : Stmt) (params : list (option string)) (t : Table) :
  let t' := snd (exec_table st params t) in
  completed_column t' = completed_column t /\
  created_at_column t' = created_at_column t.
Proof.
  cbv zeta.
  destruct st; destruct params as [|p1 [|p2 [|p3 params]]]; try (same_columns).
  - unfold exec_table, insert.
    destruct (text_param p1) as [m | p1']; [same_columns|].
    destruct (coerce_text p1') as [m | [s|]]; try (same_columns);
      destruct (2 ^ 31 - 1 <? next_id t); try (same_columns).
    destruct (rows t !! next_id t); same_columns.
  - unfold exec_table, update_text.
    destruct (text_param p1) as [m | p1']; [same_columns|].
    destruct (int_param int4_in p2) as [m | oid]; [same_columns|].
    destruct (coerce_text p1') as [m | v]; [same_columns|].
    destruct (oid ≫= _) as [[id r]|]; [|same_columns].
    destruct v; same_columns.
  - unfold exec_table, delete_row.
    destruct (int_param int4_in p1) as [m | [id|]]; same_columns.
  - unfold exec_table, select_page.
    destruct (int_param int8_in p1); [same_columns|].
    destruct (int_param int8_in p2); [same_columns|].
    destruct (below_zero _); [same_columns|].
    destruct (below_zero _); same_columns.
  - unfold exec_table, search.
    destruct (text_param p1) as [m | [pattern|]]; try same_columns.
    destruct (tokens _); same_columns.
  - unfold exec_table, date_range. destruct (created_at_column t) eqn:Hcol; [same_columns|].
    destruct (timestamp_param p1); [same_columns|].
    destruct (timestamp_param p2); same_columns.
  - unfold exec_table, complete. destruct (completed_column t) eqn:Hcol; [same_columns|].
    destruct (int_param int4_in p1) as [m | oid]; [same_columns|].
    destruct (oid ≫= _) as [[id r]|]; same_columns.
Qed.

Lemma exec_two_columns (q : Query) (db : DB) :
  two_columns db -> two_columns (snd (exec q db)).
Proof.
  intros Hdb. unfold exec. destruct (parse (Server.text q)) as [st|]; [|exact Hdb].
  destruct db as [t|].
  - pose proof (exec_table_keeps_columns st (map prepareValue (values q)) t) as Hk.
    destruct (exec_table st (map prepareValue (values q)) t) as [a t'].
    cbn [snd two_columns] in *. destruct Hk as [-> ->]. exact Hdb.
  - destruct st; try exact I. split; reflexivity.
Qed.

Lemma serve_all_two_columns (rs : list Request) (db : DB) :
  two_columns db -> two_columns (serve_all rs db).
Proof.
  revert db. induction rs as [|r rs IH]; intros db Hdb; [exact Hdb|].
  apply IH. unfold serve. now apply run_invariant; [apply exec_two_columns|].
Qed.

Lemma fails_without_columns (db : DB) (id : string) (startDate endDate : Value) :
  two_columns db ->
  (exists message,
      result (serve (PatchComplete id) db)
      = inr (res_status_json 500 (VObj [("error", VStr message)]))) /\
  (exists message,
      result (serve (GetDateRange startDate endDate) db)
      = inr (res_status_json 500 (VObj [("error", VStr message)]))).
Proof.
  destruct db as [t|]; [|split; eexists; reflexivity].
  intros [Hc Hd]. split.
  - unfold serve, app, caught, patch_complete.
    cbn [run bind bind_try try_catch pool_query ok throw].
    change (exec {| Server.text := COMPLETE; values := [VStr id] |} (Some t))
      with (let '(a, t') := complete (Some id) t in (a, Some t')).
    unfold complete. rewrite Hc. eexists. reflexivity.
  - unfold serve, app, caught, get_date_range.
    cbn [run bind bind_try try_catch pool_query ok throw].
    change (exec {| Server.text := DATE_RANGE; values := [startDate; endDate] |} (Some t))
      with (let '(a, t') := date_range (prepareValue startDate) (prepareValue endDate) t
            in (a, Some t')).
    unfold date_range. rewrite Hd. eexists. reflexivity.
Qed.

(** No request adds a column. So on a store that starts without the table
    (or with the two-column table POST /todos creates), after any requests
    in any order PATCH /todos/:id/complete and GET /todos/date-range still
    answer 500, for every id and every range. *)
Theorem complete_and_date_range_never_work_on_the_created_table
  (rs : list Request) (db0 : DB) (id : string) (startDate endDate : Value) :
  two_columns db0 ->
  let db := serve_all rs db0 in
  two_columns db /\
  (exists message,
      result (serve (PatchComplete id) db)
      = inr (res_status_json 500 (VObj [("error", VStr message)]))) /\
  (exists message,
      result (serve (GetDateRange startDate endDate) db)
      = inr (res_status_json 500 (VObj [("error", VStr message)]))).
Proof.
  intros H0. cbv zeta.
  pose proof (serve_all_two_columns rs db0 H0) as Hdb.
  split; [exact Hdb|]. now apply fails_without_columns.
Qed.

(** On a table where every id was given out by the sequence and the
    sequence has a value left, for a text of at most 255 characters without
    a NUL character: POST /todos, then DELETE /todos/:id with the id that
    POST returned, leaves the rows there were before the POST; of the state
    only the sequence has moved, so the id is not given out again. *)
Theorem post_then_delete_restores_the_rows (s : string) (t : Table) :
  wf t ->
  1 <= next_id t <= 2 ^ 31 - 1 ->
  (String.length s <= 255)%nat ->
  has_nul s = false ->
  let posted := serve (PostTodos (VStr s)) (Some t) in
  let deleted := serve (DeleteTodo (pretty (next_id t))) (final posted) in
  (exists row,
      result posted = inr (res_json row) /\
      get_prop row "id" = inr (VNum (Num (next_id t))) /\
      ToString (VNum (Num (next_id t))) = inr (pretty (next_id t))) /\
  result deleted = inr (res_json DELETED) /\
  final deleted = Some (with_next_id t (next_id t + 1)).
Proof.
  intros Hwf Hseq Hlen Hnul. cbv zeta.
  destruct (post_on_table s t Hwf ltac:(lia) Hlen Hnul) as [Hr Hf].
  rewrite Hr, Hf, serve_delete, int4_in_decimal by lia.
  cbn [result final body res_json]. split.
  { eexists. split; [reflexivity|]. split; [reflexivity|].
    cbn [ToString]. f_equal. apply Number_toString_small. lia. }
  split; [reflexivity|].
  f_equal. unfold with_rows, with_next_id.
  cbn [rows completed_column created_at_column next_id]. f_equal.
  rewrite delete_insert_eq. apply delete_id.
  destruct (rows t !! next_id t) as [r|] eqn:Hrow; [|reflexivity].
  specialize (Hwf _ _ Hrow). lia.
Qed.

(** GET /todos/search with an empty [q] (the pattern is [%%]) returns every
    row: the same answer as GET /todos. *)
Theorem search_with_empty_q_lists_everything (t : Table) :
  result (serve (GetSearch (VStr "")) (Some t)) = result (serve GetTodos (Some t)).
Proof.
  assert (Htoks : tokens (lower_string ("%" +:+ "" +:+ "%")) = Some [Any; Any]).
  { rewrite !lower_string_app, lower_percent. reflexivity. }
  rewrite (serve_search (VStr "") "" t [Any; Any] eq_refl eq_refl Htoks), serve_get_todos.
  cbv zeta. cbn [result]. do 4 f_equal.
  induction (scan t) as [|kr l IH]; [reflexivity|].
  cbn [List.filter]. now rewrite matches_any_any, IH.
Qed.

(** After a DELETE /todos/:id that succeeded, GET /todos lists no row with
    that id, lists every row that had another id, and lists nothing that
    was not listed before. *)
Theorem delete_then_get_omits_the_row (id : string) (t : Table) (z : Z) :
  int4_in id = inr z ->
  let before := returned_rows (result (serve GetTodos (Some t))) in
  let after :=
    returned_rows (result (serve GetTodos (final (serve (DeleteTodo id) (Some t))))) in
  (forall v, In v after -> get_prop v "id" <> inr (VNum (Num z))) /\
  (forall j r, rows t !! j = Some r -> j <> z -> In (row_value t j r) after) /\
  (forall v, In v after -> In v before).
Proof.
  intros Hid. cbv zeta. rewrite serve_delete, Hid. cbn [final].
  rewrite !serve_get_todos. cbn [returned_rows body res_json].
  unfold row_values.
  set (t' := with_rows t (delete z (rows t))).
  assert (Hin : forall v,
             In v (map (fun kr => row_value t' kr.1 kr.2) (scan t')) <->
             exists j r, v = row_value t j r /\ rows t !! j = Some r /\ j <> z).
  { intros v. rewrite in_map_iff. split.
    - intros ([j r] & <- & Hjr). apply scan_In in Hjr.
      unfold t' in Hjr. cbn [rows with_rows] in Hjr.
      apply lookup_delete_Some in Hjr as [Hne Hjr]. exists j, r. auto.
    - intros (j & r & -> & Hjr & Hne). exists (j, r). split; [reflexivity|].
      apply scan_In. unfold t'. cbn [rows with_rows].
      apply lookup_delete_Some. auto. }
  split; [|split].
  - intros v (j & r & -> & _ & Hne)%Hin. unfold row_value. cbn. congruence.
  - intros j r Hjr Hne. apply Hin. eauto.
  - intros v (j & r & -> & Hjr & _)%Hin. apply in_map_iff. exists (j, r).
    split; [reflexivity|]. now apply scan_In.
Qed.

End Routes.
(* ===================================================================== *)
(** ** The other client actions against any server *)
(* ===================================================================== *)

Section ClientActions.
Import JS Eff Client.

Lemma id_is_spec (id : Z) (todo : Value) :
  todo <> VNull -> todo <> VUndefined ->
  exists same, id_is id todo = inr same /\ (same = true <-> has_id id todo).
Proof.
  intros Hnull Hundef. unfold id_is, has_id.
  destruct todo as [| |b|n|s|l|fields]; try congruence;
    try (exists false; split; [reflexivity | split; discriminate]).
  cbn [get_prop].
  destruct (assoc "id" fields) as [| |b|[|z|b]|s|l|fields'];
    try (exists false; split; [reflexivity | split; discriminate]).
  exists (z =? id). split; [reflexivity|]. rewrite Z.eqb_eq.
  split; [now intros -> | now intros [= ->]].
Qed.

Lemma id_is_hole (id : Z) (todo : Value) :
  todo = VNull \/ todo = VUndefined -> exists message, id_is id todo = inl message.
Proof. intros [-> | ->]; eexists; reflexivity. Qed.

Lemma classic_no_holes (l : list Value) : no_holes l \/ ~ no_holes l.
Proof.
  induction l as [|todo l [IH | IH]].
  - left. constructor.
  - destruct todo; try (left; constructor; [split; discriminate | exact IH]);
      right; intros Hall; inversion Hall as [|? ? [Hn Hu] ?]; congruence.
  - right. intros Hall. inversion Hall. contradiction.
Qed.

(** What [todos.filter(todo => todo.id !== id)] keeps. *)
Lemma filter_out_spec (id : Z) (l : list Value) :
  no_holes l ->
  exists kept,
    filter_out id l = inr kept /\
    kept `sublist_of` l /\
    (forall v, In v kept <-> In v l /\ ~ has_id id v) /\
    filter_out id kept = inr kept.
Proof.
  induction 1 as [|todo l [Hnull Hundef] _ (kept & Hkept & Hsub & Hin & Hagain)].
  - exists []. split; [reflexivity|]. split; [constructor|].
    split; [|reflexivity]. intros v. cbn [In]. tauto.
  - destruct (id_is_spec id todo Hnull Hundef) as (same & Hsame & Hiff).
    cbn [filter_out]. rewrite Hsame, Hkept. destruct same.
    + exists kept. split; [reflexivity|]. split; [now apply sublist_cons|].
      split; [|exact Hagain]. intros v. rewrite Hin. cbn [In]. split; [tauto|].
      intros [[<- | Hv] Hno]; [|tauto]. destruct Hno. now apply Hiff.
    + exists (todo :: kept). split; [reflexivity|]. split; [now apply sublist_skip|].
      split.
      * intros v. cbn [In]. rewrite Hin. split; [|tauto].
        intros [<- | Hv]; [|tauto]. split; [now left|].
        intros Hhas. apply Hiff in Hhas. discriminate Hhas.
      * cbn [filter_out]. now rewrite Hsame, Hagain.
Qed.

Lemma filter_out_hole (id : Z) (l : list Value) :
  ~ no_holes l -> exists message, filter_out id l = inl message.
Proof.
  induction l as [|todo l IH]; intros Hholes.
  - destruct Hholes. constructor.
  - cbn [filter_out]. destruct (id_is id todo) as [m | same] eqn:Hsame; [now eexists|].
    destruct IH as [m Hm].
    + intros Hl. apply Hholes. constructor; [|exact Hl].
      split; intros ->; discriminate Hsame.
    + rewrite Hm. now eexists.
Qed.

(** What [todos.map(todo => todo.id === id ? updatedTodo : todo)] gives. *)
Lemma replace_with_spec (id : Z) (updatedTodo : Value) (l : list Value) :
  no_holes l ->
  exists mapped,
    replace_with id updatedTodo l = inr mapped /\
    length mapped = length l /\
    forall (i : nat) v,
      l !! i = Some v ->
      (has_id id v -> mapped !! i = Some updatedTodo) /\
      (~ has_id id v -> mapped !! i = Some v).
Proof.
  induction 1 as [|todo l [Hnull Hundef] _ (mapped & Hmapped & Hlen & Hat)].
  - exists []. split; [reflexivity|]. split; [reflexivity|]. intros i v Hi.
    discriminate Hi.
  - destruct (id_is_spec id todo Hnull Hundef) as (same & Hsame & Hiff).
    cbn [replace_with]. rewrite Hsame, Hmapped. eexists. split; [reflexivity|].
    split; [cbn [length]; now rewrite Hlen|].
    intros [|i] v Hi; [|now apply Hat].
    injection Hi as <-. cbn. destruct same.
    + split; [reflexivity|]. intros Hno. destruct Hno. now apply Hiff.
    + split; [|reflexivity]. intros Hhas. apply Hiff in Hhas. discriminate Hhas.
Qed.

Lemma replace_with_hole (id : Z) (updatedTodo : Value) (l : list Value) :
  ~ no_holes l -> exists message, replace_with id updatedTodo l = inl message.
Proof.
  induction l as [|todo l IH]; intros Hholes.
  - destruct Hholes. constructor.
  - cbn [replace_with].
    destruct (id_is id todo) as [m | same] eqn:Hsame; [now eexists|].
    destruct IH as [m Hm].
    + intros Hl. apply Hholes. constructor; [|exact Hl].
      split; intros ->; discriminate Hsame.
    + rewrite Hm. now eexists.
Qed.

Context {S : Type} (net : Request -> S -> Reply * S).

(** [fetchTodos] sends one GET of the list, whatever the state. When the
    reply parses, the parsed value becomes [todos] as a whole, array or not
    (the error object of a 500 included), the list held before playing no
    part; when the request or the parsing fails the state is unchanged.
    [input] is never touched. *)
Theorem fetchTodos_replaces_the_list (st : State) (s : S) :
  let o := run net (fetchTodos st) s in
  exists reply,
    net GET_REQUEST s = (reply, final o) /\
    trace o = [(GET_REQUEST, reply)] /\
    fetched_input (result o) = input st /\
    (forall data, reply = Responded (inr data) -> fetched_todos (result o) = data) /\
    ((forall data, reply <> Responded (inr data)) ->
     fetched_todos (result o) = VArr (todos st)).
Proof.
  cbv zeta. unfold fetchTodos.
  cbn [run bind bind_try try_catch fetch ok throw].
  destruct (net GET_REQUEST s) as [reply s1]. exists reply.
  destruct reply as [m | [m | v]]; cbn; (split; [reflexivity|]);
    (split; [reflexivity|]); (split; [reflexivity|]);
    (split; [intros data [= <-]; reflexivity|]).
  - reflexivity.
  - reflexivity.
  - intros Hnot. now destruct (Hnot v).
Qed.

(** [deleteTodo] sends one DELETE for the id and never reads the answer:
    as soon as the request completes, whatever the server answered, the
    items with that id leave the local list and the others stay, in their
    order; doing it again changes nothing more. Only when the request does
    not complete, or when the list holds a [null] or [undefined] item (the
    filter throws), is the state left as it was. *)
Theorem deleteTodo_filters_whatever_the_answer (id : Z) (st : State) (s : S) :
  let o := run net (deleteTodo id st) s in
  exists reply,
    net (DELETE_REQUEST id) s = (reply, final o) /\
    trace o = [(DELETE_REQUEST id, reply)] /\
    input (result o) = input st /\
    (forall message, reply = Rejected message -> result o = st) /\
    (~ no_holes (todos st) -> result o = st) /\
    (forall json, reply = Responded json -> no_holes (todos st) ->
       todos (result o) `sublist_of` todos st /\
       (forall v, In v (todos (result o)) <-> In v (todos st) /\ ~ has_id id v) /\
       filter_out id (todos (result o)) = inr (todos (result o))).
Proof.
  cbv zeta. unfold deleteTodo.
  cbn [run bind bind_try try_catch fetch ok throw].
  destruct (net (DELETE_REQUEST id) s) as [reply s1]. exists reply.
  destruct (classic_no_holes (todos st)) as [Hok | Hbad].
  - destruct (filter_out_spec id (todos st) Hok) as (kept & -> & Hsub & Hin & Hagain).
    destruct reply as [m | json]; cbn; (split; [reflexivity|]);
      (split; [reflexivity|]); (split; [reflexivity|]).
    + split; [reflexivity|]. split; [tauto|]. intros json [=].
    + split; [intros m [=]|]. split; [tauto|]. intros j _ _. auto.
  - destruct (filter_out_hole id (todos st) Hbad) as [m' ->].
    destruct reply as [m | json]; cbn; (split; [reflexivity|]);
      (split; [reflexivity|]); (split; [reflexivity|]).
    + split; [reflexivity|]. split; [reflexivity|]. intros json [=].
    + split; [intros m [=]|]. split; [reflexivity|]. tauto.
Qed.

(** [editTodo] sends one PUT of the new text for the id. When the reply
    parses, the list keeps its length and its order: every item with that id
    becomes the parsed value and every other item stays. When the reply
    does not parse (an empty body, say), when the request does not
    complete, or when the list holds a [null] or [undefined] item, the
    state is left as it was. *)
Theorem editTodo_replaces_in_place (id : Z) (newText : string) (st : State) (s : S) :
  let o := run net (editTodo id newText st) s in
  exists reply,
    net (PUT_REQUEST id newText) s = (reply, final o) /\
    trace o = [(PUT_REQUEST id newText, reply)] /\
    input (result o) = input st /\
    ((forall updatedTodo, reply <> Responded (inr updatedTodo)) -> result o = st) /\
    (~ no_holes (todos st) -> result o = st) /\
    (forall updatedTodo,
        reply = Responded (inr updatedTodo) -> no_holes (todos st) ->
        length (todos (result o)) = length (todos st) /\
        forall (i : nat) v,
          todos st !! i = Some v ->
          (has_id id v -> todos (result o) !! i = Some updatedTodo) /\
          (~ has_id id v -> todos (result o) !! i = Some v)).
Proof.
  cbv zeta. unfold editTodo.
  cbn [run bind bind_try try_catch fetch ok throw].
  destruct (net (PUT_REQUEST id newText) s) as [reply s1]. exists reply.
  destruct reply as [m | [m | updatedTodo]].
  - cbn. split; [reflexivity|]. split; [reflexivity|]. split; [reflexivity|].
    split; [reflexivity|]. split; [reflexivity|]. intros u [=].
  - cbn. split; [reflexivity|]. split; [reflexivity|]. split; [reflexivity|].
    split; [reflexivity|]. split; [reflexivity|]. intros u [=].
  - cbn [run bind bind_try try_catch response_json ok throw].
    destruct (classic_no_holes (todos st)) as [Hok | Hbad].
    + destruct (replace_with_spec id updatedTodo (todos st) Hok)
        as (mapped & -> & Hlen & Hat).
      cbn. split; [reflexivity|]. split; [reflexivity|]. split; [reflexivity|].
      split; [intros Hnot; now destruct (Hnot updatedTodo)|]. split; [tauto|].
      intros u [= <-] _. auto.
    + destruct (replace_with_hole id updatedTodo (todos st) Hbad) as [m' ->].
      cbn. split; [reflexivity|]. split; [reflexivity|]. split; [reflexivity|].
      split; [reflexivity|]. split; [reflexivity|]. tauto.
Qed.

Lemma filter_out_fresh (id : Z) (l : list Value) :
  no_holes l ->
  (forall v, In v l -> ~ has_id id v) ->
  filter_out id l = inr l.
Proof.
  induction 1 as [|todo l [Hnull Hundef] _ IH]; intros Hfresh; [reflexivity|].
  destruct (id_is_spec id todo Hnull Hundef) as (same & Hsame & Hiff).
  cbn [filter_out]. rewrite Hsame, IH by (intros v Hv; apply Hfresh; now right).
  destruct same; [|reflexivity].
  destruct (Hfresh todo (or_introl eq_refl)). now apply Hiff.
Qed.

Lemma filter_out_app (id : Z) (l1 l2 k1 k2 : list Value) :
  filter_out id l1 = inr k1 ->
  filter_out id l2 = inr k2 ->
  filter_out id (l1 ++ l2)%list = inr (k1 ++ k2)%list.
Proof.
  revert k1. induction l1 as [|todo l1 IH]; intros k1 H1 H2.
  - injection H1 as <-. exact H2.
  - cbn [filter_out app] in *. destruct (id_is id todo) as [m | same]; [discriminate|].
    destruct (filter_out id l1) as [m | kept]; [discriminate|].
    rewrite (IH kept eq_refl H2). injection H1 as <-. now destruct same.
Qed.

(** Adding an item and then deleting it gives back the list there was:
    when the server's reply to [addTodo] is an object whose [id] is a
    number that no item of the list has, [deleteTodo] of that id, once its
    request completes, leaves exactly the items from before the addition. *)
Theorem add_then_delete_restores_the_list
  (st : State) (s s1 s2 : S) (newTodo : Value) (n : Z) (json : string + Value) :
  trim (input st) <> "" ->
  no_holes (todos st) ->
  (forall v, In v (todos st) -> ~ has_id n v) ->
  has_id n newTodo ->
  net (POST_REQUEST (trim (input st))) s = (Responded (inr newTodo), s1) ->
  net (DELETE_REQUEST n) s1 = (Responded json, s2) ->
  let added := run net (addTodo st) s in
  let deleted := run net (deleteTodo n (result added)) (final added) in
  result added = {| todos := (todos st ++ [newTodo])%list; input := "" |} /\
  result deleted = {| todos := todos st; input := "" |} /\
  final deleted = s2.
Proof.
  intros Htrim Hok Hfresh Hnew Hpost Hdelete. cbv zeta.
  assert (Hadded : run net (addTodo st) s =
                   {| result := {| todos := (todos st ++ [newTodo])%list; input := "" |};
                      final := s1;
                      trace := [(POST_REQUEST (trim (input st)), Responded (inr newTodo))] |}).
  { unfold addTodo. destruct (trim (input st)) as [|c text] eqn:Htext; [congruence|].
    cbn [truthy_string run bind bind_try try_catch fetch ok throw].
    unfold POST_REQUEST in Hpost. rewrite Hpost. reflexivity. }
  rewrite Hadded. cbn [result final]. split; [reflexivity|].
  unfold deleteTodo. cbn [run bind bind_try try_catch fetch ok throw todos input].
  rewrite Hdelete. cbn [run bind bind_try try_catch ok throw].
  assert (Hlast : filter_out n [newTodo] = inr []).
  { cbn [filter_out]. unfold id_is. unfold has_id in Hnew. rewrite Hnew.
    now rewrite Z.eqb_refl. }
  rewrite (filter_out_app n (todos st) [newTodo] (todos st) []
             (filter_out_fresh n (todos st) Hok Hfresh) Hlast).
  rewrite app_nil_r. split; reflexivity.
Qed.

End ClientActions.

(* ===================================================================== *)
(** ** The theorems at concrete inputs, and where the specification fails *)
(* ===================================================================== *)

(** C1, as stated, fails: without the table, DELETE /todos/1 answers 500. *)
Lemma delete_todo_fails_without_table :
  ~ (forall (codec : Pg.Codec) (id : string) (db : Pg.DB),
        Eff.result (Pg.serve (Server.DeleteTodo id) db) =
        inr (Server.res_json (JS.VObj [("message", JS.VStr "Todo deleted")]))).
Proof.
  intros Hclaim. specialize (Hclaim sample_codec "1" None).
  vm_compute in Hclaim. discriminate Hclaim.
Qed.



Example post_on_empty_store :
  Eff.final (@Pg.serve sample_codec (Server.PostTodos (JS.VStr "Buy Milk")) None)
  = Some healed_table.
Proof. vm_compute. reflexivity. Qed.

(** C8, as stated, fails: on the table POST /todos created, PATCH
    /todos/1/complete answers 500 although row 1 exists. *)
Lemma patch_complete_fails_on_created_table :
  ~ (forall (codec : Pg.Codec) (id : string) (t : Pg.Table) (z : Z) (r : Pg.Row),
        Pg.int4_in id = inr z ->
        Pg.rows t !! z = Some r ->
        let o := Pg.serve (Server.PatchComplete id) (Some t) in
        exists row,
          Eff.result o = inr (Server.res_json row) /\
          JS.get_prop row "completed" = inr (JS.VBool true)).
Proof.
  intros Hclaim.
  destruct (Hclaim sample_codec "1" healed_table 1
              {| Pg.text := "Buy Milk"; Pg.completed := None; Pg.created_at := None |}
              eq_refl eq_refl) as (row & H200 & _).
  vm_compute in H200. discriminate H200.
Qed.

(** C6, as stated, fails twice. An empty [q] gives the pattern [%%], not
    [%undefined%]. And the match is a pattern match: [q=_] returns the row
    "Buy Milk", whose text has no underscore in it. *)
Lemma search_is_not_plain_substring_match :
  ~ (forall q, q = JS.VStr "" \/ q = JS.VUndefined ->
               Server.like_pattern q = inr "%undefined%") /\
  ~ (forall (codec : Pg.Codec) (s : string) (t : Pg.Table) (id : Z) (r : Pg.Row),
        Pg.rows t !! id = Some r ->
        (In (Pg.row_value t id r)
            (Server.returned_rows
               (Eff.result (Pg.serve (Server.GetSearch (JS.VStr s)) (Some t)))) <->
         JS.contains (Pg.lower_string (Pg.text r)) (Pg.lower_string s))).
Proof.
  split.
  - intros Hclaim. specialize (Hclaim (JS.VStr "") (or_introl eq_refl)).
    vm_compute in Hclaim. discriminate Hclaim.
  - intros Hclaim.
    destruct (Hclaim sample_codec "_" healed_table 1
                {| Pg.text := "Buy Milk"; Pg.completed := None; Pg.created_at := None |}
                eq_refl) as [Hin _].
    assert (Hfound : JS.contains "buy milk" "_").
    { apply Hin. vm_compute. left. reflexivity. }
    apply StringFacts.includes_contains in Hfound.
    vm_compute in Hfound. discriminate Hfound.
Qed.

(** The example of the specification: "Buy Milk" is found by [q=milk]. *)
Example search_buy_milk :
  Server.returned_rows
    (Eff.result (@Pg.serve sample_codec (Server.GetSearch (JS.VStr "milk")) (Some healed_table)))
  = [JS.VObj [("id", JS.VNum (JS.Num 1)); ("text", JS.VStr "Buy Milk")]].
Proof. vm_compute. reflexivity. Qed.

(** GET /todos without the table. *)
Lemma get_todos_classifies_errors_witness :
  let o := Eff.run (@Pg.exec sample_codec) Server.get_todos None in
  Server.status (Eff.result o) = 500 /\
  (JS.contains Server.MISSING_RELATION Server.MISSING_RELATION ->
   Server.body (Eff.result o) = JS.VObj [("error", JS.VStr Server.NO_TABLE_MESSAGE)]) /\
  (~ JS.contains Server.MISSING_RELATION Server.MISSING_RELATION ->
   Server.body (Eff.result o) = JS.VObj [("error", JS.VStr Server.MISSING_RELATION)]) /\
  Eff.trace o = [(Server.SELECT_ALL_QUERY, Server.Threw Server.MISSING_RELATION)] /\
  Eff.final o = None.
Proof.
  apply (get_todos_classifies_errors (@Pg.exec sample_codec) None None
           Server.MISSING_RELATION).
  reflexivity.
Defined.

(** POST /todos without the table. *)
Lemma post_todos_self_heal_witness :
  Eff.result (Eff.run (@Pg.exec sample_codec) (Server.post_todos (JS.VStr "Buy Milk")) None)
  = Server.res_json (JS.VObj [("id", JS.VNum (JS.Num 1)); ("text", JS.VStr "Buy Milk")]).
Proof.
  pose proof (post_todos_self_heal (@Pg.exec sample_codec) (JS.VStr "Buy Milk")
                None None Server.MISSING_RELATION eq_refl) as (_ & Hheal & _).
  assert (Hc : JS.contains Server.MISSING_RELATION Server.MISSING_RELATION).
  { exists "", "". symmetry. apply StringFacts.append_nil_r. }
  destruct (Hheal Hc) as [_ Hcreated].
  destruct (Hcreated [] (Some Pg.created_table) eq_refl) as [_ Hinsert].
  destruct (Hinsert [JS.VObj [("id", JS.VNum (JS.Num 1)); ("text", JS.VStr "Buy Milk")]]
                    (Some healed_table) eq_refl) as [Hresult _].
  exact Hresult.
Defined.


(** PATCH /todos/7/complete on the provisioned table. *)
Lemma patch_complete_idempotent_witness :
  let once := @Pg.serve sample_codec (Server.PatchComplete "7") (Some provisioned_table) in
  let twice := @Pg.serve sample_codec (Server.PatchComplete "7") (Eff.final once) in
  Eff.result once
  = inr (Server.res_json
           (JS.VObj [("id", JS.VNum (JS.Num 7)); ("text", JS.VStr "Walk the dog");
                     ("completed", JS.VBool true); ("created_at", JS.VNull)])) /\
  Eff.result twice = Eff.result once /\
  Eff.final twice = Eff.final once.
Proof.
  pose proof (@patch_complete_idempotent sample_codec "7" provisioned_table (Some false) 7
                {| Pg.text := "Walk the dog"; Pg.completed := Some false;
                   Pg.created_at := None |}
                eq_refl eq_refl eq_refl) as (Hfirst & _ & _ & Hresult & Hfinal).
  cbv zeta. split; [exact Hfirst|]. auto.
Defined.


(** POST /todos on the table it created before. *)
Lemma wf_healed_table : Pg.wf healed_table.
Proof.
  intros id r Hrow. cbn in Hrow.
  apply lookup_singleton_Some in Hrow as [<- _]. reflexivity.
Qed.

Lemma every_request_keeps_ids_below_sequence_witness :
  Pg.wf_db (Eff.final (@Pg.serve sample_codec (Server.PostTodos (JS.VStr "Walk the dog"))
                         (Some healed_table))).
Proof.
  apply (@every_request_keeps_ids_below_sequence sample_codec).
  exact wf_healed_table.
Defined.

(** POST /todos, then GET /todos, starting without the table. *)
Lemma post_then_get_lists_the_row_witness :
  exists row listed_rows,
    Eff.result (@Pg.serve sample_codec (Server.PostTodos (JS.VStr "a")) None)
    = inr (Server.res_json row) /\
    Eff.result
      (@Pg.serve sample_codec Server.GetTodos
         (Eff.final (@Pg.serve sample_codec (Server.PostTodos (JS.VStr "a")) None)))
    = inr (Server.res_json (JS.VArr listed_rows)) /\
    In row listed_rows.
Proof.
  destruct (@post_then_get_lists_the_row sample_codec "a" None I I
              ltac:(simpl; lia) eq_refl)
    as (row & listed_rows & Hposted & _ & Hlisted & Hin).
  exists row, listed_rows. auto.
Defined.

(** GET /todos/paginated?page=1&limit=10 on a table of one row. *)
Lemma paginated_window_and_counts_witness :
  exists totalPages,
    Eff.result (@Pg.serve sample_codec
                  (Server.GetPaginated (JS.VStr "1") (JS.VStr "10")) (Some healed_table))
    = inr (Server.res_json
             (Server.page_body
                (take (Z.to_nat 10)
                      (drop (Z.to_nat ((1 - 1) * 10))
                            (Server.returned_rows
                               (Eff.result (@Pg.serve sample_codec Server.GetTodos
                                              (Some healed_table))))))
                (JS.Num 1) (JS.Num totalPages)
                (JS.Num (Z.of_nat (size (Pg.rows healed_table)))))) /\
    (totalPages - 1) * 10 < Z.of_nat (size (Pg.rows healed_table)) <= totalPages * 10.
Proof.
  destruct (@paginated_window_and_counts sample_codec (JS.VStr "1") (JS.VStr "10") 1 10
              healed_table eq_refl eq_refl ltac:(lia) ltac:(lia) ltac:(lia)
              ltac:(vm_compute; reflexivity))
    as [Hpage _].
  exact Hpage.
Defined.

(** The pages of one row each of the provisioned table. *)
Lemma pages_cover_all_rows_witness :
  exists totalPages,
    JS.ceil_div (JS.Num (Z.of_nat (size (Pg.rows provisioned_table)))) (JS.Num 1)
    = JS.Num totalPages /\
    concat (map (fun i => Server.page_todos
                            (Eff.result
                               (@Pg.serve sample_codec
                                  (Server.GetPaginated (JS.VStr (pretty (Z.of_nat i + 1)))
                                                       (JS.VStr (pretty 1)))
                                  (Some provisioned_table))))
                (seq 0 (Z.to_nat totalPages)))
    = Server.returned_rows (Eff.result (@Pg.serve sample_codec Server.GetTodos
                                          (Some provisioned_table))).
Proof.
  destruct (@pages_cover_all_rows sample_codec 1 provisioned_table ltac:(lia)
              ltac:(vm_compute; reflexivity))
    as (totalPages & Hceil & _ & Hpages).
  exists totalPages. split; [exact Hceil | exact Hpages].
Defined.

(** The scenario of the specification: from an empty store, POST "a", GET,
    DELETE /todos/1, GET. *)
Example scenario_post_get_delete_get :
  let serve := @Pg.serve sample_codec in
  let row := JS.VObj [("id", JS.VNum (JS.Num 1)); ("text", JS.VStr "a")] in
  let s1 := serve (Server.PostTodos (JS.VStr "a")) None in
  let s2 := serve Server.GetTodos (Eff.final s1) in
  let s3 := serve (Server.DeleteTodo "1") (Eff.final s2) in
  let s4 := serve Server.GetTodos (Eff.final s3) in
  Eff.result s1 = inr (Server.res_json row) /\
  Eff.result s2 = inr (Server.res_json (JS.VArr [row])) /\
  Eff.result s3 = inr (Server.res_json Server.DELETED) /\
  Eff.result s4 = inr (Server.res_json (JS.VArr [])).
Proof. vm_compute. repeat split. Qed.

(** The first POST against an empty store, then GET /todos/count. *)
Example first_post_then_count :
  Eff.result
    (@Pg.serve sample_codec Server.GetCount
       (Eff.final (@Pg.serve sample_codec (Server.PostTodos (JS.VStr "a")) None)))
  = inr (Server.res_json (JS.VObj [("count", JS.VNum (JS.Num 1))])).
Proof. vm_compute. reflexivity. Qed.

(** What [parseInt] makes of some query parameters. *)
Example parseInt_examples :
  JS.parseInt (JS.VStr "12abc") = inr (JS.Num 12) /\
  JS.parseInt (JS.VStr "abc") = inr JS.NaN /\
  JS.parseInt (JS.VStr "") = inr JS.NaN /\
  JS.parseInt JS.VUndefined = inr JS.NaN /\
  JS.parseInt (JS.VStr " -7") = inr (JS.Num (-7)) /\
  JS.parseInt (JS.VStr "0") = inr (JS.Num 0) /\
  JS.parseInt (JS.VStr "0x1f") = inr (JS.Num 31) /\
  JS.parseInt (JS.VArr [JS.VStr "3"; JS.VStr "4"]) = inr (JS.Num 3) /\
  JS.parseInt (JS.VObj [("a", JS.VStr "1")]) = inr JS.NaN /\
  JS.parseInt Server.UNCONVERTIBLE = inl JS.CANNOT_CONVERT.
Proof. repeat split. Qed.

(** Numbers are doubles: beyond 2^53 an integer is rounded when it is read
    and when it is computed, and printed with the fewest digits that give
    it back. *)
Example doubles_round :
  JS.parseInt (JS.VStr "9007199254740993") = inr (JS.Num 9007199254740992) /\
  JS.mul (JS.sub (JS.Num 4) (JS.Num 1)) (JS.Num 9007199254740991)
  = JS.Num 27021597764222972 /\
  JS.Number_toString (JS.double 9223372036854775807) = "9223372036854776000" /\
  JS.Number_toString (JS.double (10 ^ 21)) = "1e+21" /\
  JS.Number_toString (JS.double (2 ^ 70)) = "1.1805916207174113e+21" /\
  JS.double (10 ^ 400) = JS.Infinity false /\
  JS.ceil_div (JS.Num 7) (JS.Num 2) = JS.Num 4 /\
  JS.ceil_div (JS.Num 7) (JS.Num (-2)) = JS.Num (-3) /\
  JS.ceil_div (JS.Num 0) (JS.Num 10) = JS.Num 0.
Proof. vm_compute. repeat split. Qed.

(** A negative limit reaches the store, which refuses it. *)
Example negative_limit_is_refused_by_the_store :
  Eff.result (@Pg.serve sample_codec
                (Server.GetPaginated (JS.VStr "1") (JS.VStr "-5")) (Some healed_table))
  = inr (Server.res_status_json 500 (Server.error_body Pg.NEGATIVE_LIMIT)).
Proof. vm_compute. reflexivity. Qed.

(** A limit beyond the store's bigint is sent rounded, and refused. *)
Example huge_limit_is_sent_rounded :
  map fst (Eff.trace (@Pg.serve sample_codec
                        (Server.GetPaginated (JS.VStr "1") (JS.VStr "9223372036854775807"))
                        (Some healed_table)))
  = [Server.PAGE_QUERY (JS.Num 9223372036854775808) (JS.Num 0)] /\
  @Pg.prepareValue sample_codec (JS.VNum (JS.Num 9223372036854775808))
  = Some "9223372036854776000" /\
  exists message,
    Eff.result (@Pg.serve sample_codec
                  (Server.GetPaginated (JS.VStr "1") (JS.VStr "9223372036854775807"))
                  (Some healed_table))
    = inr (Server.res_status_json 500 (Server.error_body message)).
Proof. vm_compute. repeat split. eexists. reflexivity. Qed.

(** A text with a NUL character is refused by the store. *)
Example nul_is_refused :
  Eff.result (@Pg.serve sample_codec
                (Server.PostTodos (JS.VStr (String (ascii_of_nat 0) EmptyString)))
                (Some healed_table))
  = inr (Server.res_status_json 500 (Server.error_body Pg.INVALID_BYTE)).
Proof. vm_compute. reflexivity. Qed.

(** GET /todos/search?q=milk *)
Lemma get_routes_send_selects_only_witness :
  Forall (fun qa => Server.is_select (Server.text (fst qa)) = true)
         (Eff.trace (@Pg.serve sample_codec (Server.GetSearch (JS.VStr "milk"))
                       (Some healed_table))).
Proof.
  apply (get_routes_send_selects_only (@Pg.exec sample_codec)
           (Server.GetSearch (JS.VStr "milk")) (Some healed_table) eq_refl).
Defined.

(** GET /todos/paginated?page=2&limit=1 *)
Lemma get_routes_change_nothing_witness :
  Eff.final (@Pg.serve sample_codec (Server.GetPaginated (JS.VStr "2") (JS.VStr "1"))
               (Some healed_table))
  = Some healed_table.
Proof.
  apply (@get_routes_change_nothing sample_codec
           (Server.GetPaginated (JS.VStr "2") (JS.VStr "1")) (Some healed_table) eq_refl).
Defined.

(** PUT /todos/7 with a new text, on the provisioned table. *)
Lemma put_todo_replaces_the_text_witness :
  Eff.result (@Pg.serve sample_codec (Server.PutTodo "7" (JS.VStr "Feed the cat"))
                (Some provisioned_table))
  = inr (Server.res_json
           (@Pg.row_value sample_codec provisioned_table 7
              (Pg.with_text {| Pg.text := "Walk the dog"; Pg.completed := Some false;
                               Pg.created_at := None |} "Feed the cat"))).
Proof.
  pose proof (@put_todo_replaces_the_text sample_codec "7" "Feed the cat"
                provisioned_table 7
                {| Pg.text := "Walk the dog"; Pg.completed := Some false;
                   Pg.created_at := None |}
                eq_refl eq_refl ltac:(simpl; lia) eq_refl) as (Hfirst & _).
  exact Hfirst.
Defined.

(** PUT /todos/9 and PATCH /todos/9/complete: the provisioned table has no
    row 9. *)
Lemma update_of_an_absent_id_answers_200_with_no_body_witness :
  Eff.result (@Pg.serve sample_codec (Server.PutTodo "9" (JS.VStr "x"))
                (Some provisioned_table))
  = inr {| Server.status := 200; Server.body := JS.VUndefined |} /\
  Eff.result (@Pg.serve sample_codec (Server.PatchComplete "9") (Some provisioned_table))
  = inr {| Server.status := 200; Server.body := JS.VUndefined |}.
Proof.
  destruct (@update_of_an_absent_id_answers_200_with_no_body sample_codec "9"
              provisioned_table 9 eq_refl eq_refl) as [Hput Hpatch].
  split.
  - refine (proj1 (Hput (JS.VStr "x") _)). right. right. exists "x".
    split; [reflexivity|]. split; [simpl; lia | reflexivity].
  - exact (proj1 (Hpatch (Some false) eq_refl)).
Defined.

(** POST /todos with an empty body object. *)
Lemma post_without_text_leaves_the_table_created_witness :
  Eff.result (@Pg.serve sample_codec Server.GetTodos
                (Eff.final (@Pg.serve sample_codec (Server.PostTodos JS.VUndefined) None)))
  = inr (Server.res_json (JS.VArr [])).
Proof.
  pose proof (@post_without_text_leaves_the_table_created sample_codec JS.VUndefined
                (or_introl eq_refl)) as (_ & _ & _ & _ & Hget).
  exact Hget.
Defined.

(** From an empty store: POST, PUT, then PATCH /todos/1/complete. *)
Lemma complete_and_date_range_never_work_on_the_created_table_witness :
  exists message,
    Eff.result
      (@Pg.serve sample_codec (Server.PatchComplete "1")
         (@Pg.serve_all sample_codec
            [Server.PostTodos (JS.VStr "a"); Server.PutTodo "1" (JS.VStr "b")] None))
    = inr (Server.res_status_json 500 (JS.VObj [("error", JS.VStr message)])).
Proof.
  pose proof (@complete_and_date_range_never_work_on_the_created_table sample_codec
                [Server.PostTodos (JS.VStr "a"); Server.PutTodo "1" (JS.VStr "b")]
                None "1" JS.VUndefined JS.VUndefined I) as (_ & Hpatch & _).
  exact Hpatch.
Defined.

(** POST /todos then DELETE /todos/2 on the table that holds row 1. *)
Lemma post_then_delete_restores_the_rows_witness :
  Eff.final
    (@Pg.serve sample_codec (Server.DeleteTodo (pretty (Pg.next_id healed_table)))
       (Eff.final (@Pg.serve sample_codec (Server.PostTodos (JS.VStr "b"))
                     (Some healed_table))))
  = Some (Pg.with_next_id healed_table (Pg.next_id healed_table + 1)).
Proof.
  pose proof (@post_then_delete_restores_the_rows sample_codec "b" healed_table
                wf_healed_table ltac:(simpl; lia) ltac:(simpl; lia) eq_refl)
    as (_ & _ & Hfinal).
  exact Hfinal.
Defined.

(** DELETE /todos/7 on a table whose only row has id 1, then GET /todos. *)
Lemma delete_then_get_omits_the_row_witness :
  @Pg.int4_in sample_codec "7" = inr 7 /\
  In (@Pg.row_value sample_codec healed_table 1
        {| Pg.text := "Buy Milk"; Pg.completed := None; Pg.created_at := None |})
     (Server.returned_rows
        (Eff.result
           (@Pg.serve sample_codec Server.GetTodos
              (Eff.final (@Pg.serve sample_codec (Server.DeleteTodo "7")
                            (Some healed_table)))))).
Proof.
  split; [reflexivity|].
  exact (proj1 (proj2 (@delete_then_get_omits_the_row sample_codec "7" healed_table 7
                         eq_refl))
           1 {| Pg.text := "Buy Milk"; Pg.completed := None; Pg.created_at := None |}
           eq_refl ltac:(discriminate)).
Defined.

(** Typing " a " into an empty list, adding, then deleting item 1. *)
Lemma add_then_delete_restores_the_list_witness :
  Eff.result
    (Eff.run echo_server
       (Client.deleteTodo 1
          (Eff.result (Eff.run echo_server
                         (Client.addTodo {| Client.todos := []; Client.input := " a " |})
                         tt)))
       (Eff.final (Eff.run echo_server
                     (Client.addTodo {| Client.todos := []; Client.input := " a " |}) tt)))
  = {| Client.todos := []; Client.input := "" |}.
Proof.
  pose proof (add_then_delete_restores_the_list echo_server
                {| Client.todos := []; Client.input := " a " |} tt tt tt
                (JS.VObj [("id", JS.VNum (JS.Num 1)); ("text", JS.VStr "a")]) 1
                (inr (JS.VObj [("id", JS.VNum (JS.Num 1)); ("text", JS.VStr "a")]))
                ltac:(vm_compute; discriminate)
                ltac:(constructor)
                ltac:(intros v [])
                eq_refl eq_refl eq_refl) as (_ & Hdeleted & _).
  exact Hdeleted.
Defined.

(** GET /todos/paginated?page=5&limit=10 on a table of one row. *)
Lemma page_past_the_end_is_empty_witness :
  exists totalPages,
    Eff.result (@Pg.serve sample_codec (Server.GetPaginated (JS.VStr "5") (JS.VStr "10"))
                  (Some healed_table))
    = inr (Server.res_json
             (Server.page_body [] (JS.Num 5) (JS.Num totalPages)
                (JS.Num (Z.of_nat (size (Pg.rows healed_table)))))) /\
    totalPages < 5.
Proof.
  destruct (@page_past_the_end_is_empty sample_codec (JS.VStr "5") (JS.VStr "10") 5 10
              healed_table eq_refl eq_refl ltac:(lia) ltac:(lia) ltac:(lia)
              ltac:(vm_compute; discriminate))
    as (totalPages & Hresult & _ & Hlast).
  exists totalPages. split; [exact Hresult | exact Hlast].
Defined.


(** On a store that reads the hexadecimal form, DELETE /todos/0x7 deletes
    row 7; on one that reads decimal only it answers 500 and deletes
    nothing. *)
Example delete_by_hexadecimal_id :
  Eff.result (@Pg.serve other_codec (Server.DeleteTodo "0x7") (Some two_row_table))
  = inr (Server.res_json Server.DELETED) /\
  Server.returned_rows
    (Eff.result
       (@Pg.serve other_codec Server.GetTodos
          (Eff.final (@Pg.serve other_codec (Server.DeleteTodo "0x7")
                        (Some two_row_table)))))
  = [@Pg.row_value other_codec two_row_table 8
       {| Pg.text := String E_ACUTE "COLE"; Pg.completed := Some false;
          Pg.created_at := None |}] /\
  Eff.final (@Pg.serve sample_codec (Server.DeleteTodo "0x7") (Some two_row_table))
  = Some two_row_table /\
  exists message,
    Eff.result (@Pg.serve sample_codec (Server.DeleteTodo "0x7") (Some two_row_table))
    = inr (Server.res_status_json 500 (Server.error_body message)).
Proof. vm_compute. repeat split. eexists. reflexivity. Qed.

(** What ILIKE finds depends on the locale: with the accented letters of
    Latin-1 lowered, a search for the small letters finds the capital ones;
    in the C locale it does not. *)
Example search_follows_the_locale :
  let q := JS.VStr (String e_acute "cole") in
  Server.returned_rows
    (Eff.result (@Pg.serve other_codec (Server.GetSearch q) (Some two_row_table)))
  = [@Pg.row_value other_codec two_row_table 8
       {| Pg.text := String E_ACUTE "COLE"; Pg.completed := Some false;
          Pg.created_at := None |}] /\
  Server.returned_rows
    (Eff.result (@Pg.serve sample_codec (Server.GetSearch q) (Some two_row_table)))
  = [].
Proof. vm_compute. repeat split. Qed.

(** The order of the rows is the store's: the pages follow the order in
    which GET /todos returns them. *)
Example pages_follow_the_order_of_the_store :
  let ids serve :=
    map (fun v => JS.get_prop v "id")
        (Server.returned_rows (Eff.result (serve Server.GetTodos (Some two_row_table)))) in
  let first_page serve :=
    map (fun v => JS.get_prop v "id")
        (Server.page_todos
           (Eff.result (serve (Server.GetPaginated (JS.VStr "1") (JS.VStr "1"))
                              (Some two_row_table)))) in
  ids (@Pg.serve sample_codec) = [inr (JS.VNum (JS.Num 7)); inr (JS.VNum (JS.Num 8))] /\
  ids (@Pg.serve other_codec) = [inr (JS.VNum (JS.Num 8)); inr (JS.VNum (JS.Num 7))] /\
  first_page (@Pg.serve sample_codec) = [inr (JS.VNum (JS.Num 7))] /\
  first_page (@Pg.serve other_codec) = [inr (JS.VNum (JS.Num 8))].
Proof. vm_compute. repeat split. Qed.
